(** * Tool registry of blueflame-ai: provider loading, TTL cache, per-name lock

    A shallow embedding of [src/tools/tool_manager.py] and
    [src/tools/registry.py], followed by the properties of the
    specification that concern them.

    Conventions of the embedding.
    - A Python [dict] is a [gmap]; [d.get(k)] is [d !! k], [d[k] = v] is
      [<[k:=v]> d], [d.pop(k, None)] is [delete k d].
    - An operation that may raise returns an [outcome]; an operation that
      mutates an object returns the new object next to its outcome.
    - [time.time()] reads the field [time_time] of the [World].  A Python
      [float] is an IEEE 754 binary64 number; its arithmetic is the one
      specified by [SpecFloat] of the standard library, so a sum is rounded
      as the interpreter rounds it.
    - A coroutine is a small transition system: one transition per stretch
      of code between two suspension points.  The event loop interleaves
      the transitions of its tasks.  An exception that leaves the body of a
      coroutine passes through [coroutine_raise]. *)

From Stdlib Require Import ZArith QArith SpecFloat.
From stdpp Require Import gmap strings list fin_maps sorting.

Local Open Scope string_scope.

(* ===================================================================== *)
(** * Python values shared by both modules                                *)
(* ===================================================================== *)

(** A tool handle is opaque to the registry; a handle is identified here by
    its name. *)
Definition tool : Type := string.

(** Instances of [Exception].  [ToolManagerError] is the only class the
    repository defines (a [RuntimeError]); [cause] is the [__cause__] set by
    [raise ... from exc].  [RuntimeError] is an instance of the built-in
    class itself, as the interpreter and the standard library raise it.
    [StopIteration] is an instance of [StopIteration] or of a class derived
    from it.  [Exception] is an instance of any other class derived from
    [Exception], given by the name of its class. *)
#[warnings="-register-all"]
Inductive exn : Type :=
| ToolManagerError (msg : string) (cause : option exn)
| RuntimeError (msg : string) (cause : option exn)
| StopIteration (msg : string)
| Exception (cls : string) (msg : string).

Inductive outcome (A : Type) : Type :=
| Ok (a : A)
| Raise (e : exn).
Arguments Ok {A} a.
Arguments Raise {A} e.

(** An exception that leaves the body of an [async def] function.  The
    interpreter replaces a [StopIteration] by a [RuntimeError] whose cause
    is the original (PEP 479); every other exception passes as it is. *)
Definition coroutine_raise (e : exn) : exn :=
  match e with
  | StopIteration _ => RuntimeError "coroutine raised StopIteration" (Some e)
  | _ => e
  end.

(** ** Python floats *)

(** A [float] is a binary64 number: precision 53, maximal exponent 1024.
    The binary64 numbers are the values that [valid_binary 53 1024]
    accepts; the operations below keep to them. *)
Definition float : Type := spec_float.

(** [x + y]: the sum, rounded to the nearest float, ties to even. *)
Definition float_add (x y : float) : float := SFadd 53 1024 x y.

(** [x > y] and [x == y]; both are false when an operand is NaN. *)
Definition float_gt (x y : float) : bool := SFltb y x.

Definition float_eq (x y : float) : bool := SFeqb x y.

(** Truth value of a [float]: only the two zeros are false. *)
Definition float_truthy (x : float) : bool :=
  match x with
  | S754_zero _ => false
  | _ => true
  end.

(** The float nearest to [m * 2 ^ e]; [float_of n 0] is [float(n)]. *)
Definition float_of (m e : Z) : float := binary_normalize 53 1024 m e false.

(** The number a finite float stands for. *)
Definition float_value (x : float) : option Q :=
  match x with
  | S754_zero _ => Some 0%Q
  | S754_finite s m e =>
      Some ((if s then inject_Z (Zneg m) else inject_Z (Zpos m)) * 2 ^ e)%Q
  | _ => None
  end.

(** The values found in a server configuration. *)
Inductive pyval : Type :=
| PStr (s : string)
| PList (l : list string)
| PDict (d : gmap string string).

(** [settings] of [common/config.py]: the two fields the registry reads,
    both [str] with default [""]. *)
Record Settings : Type := {
  dashscope_api_key : string;
  amap_maps_api_key : string;
}.

(** What the code reads from outside the process.  [path_home] is
    [str(Path.home())] on a POSIX system, or the exception that
    [Path.home()] raises when no home directory can be determined. *)
Record World : Type := {
  time_time : float;            (* time.time() *)
  settings : Settings;          (* common.config.settings *)
  path_home : outcome string;   (* Path.home() *)
}.

(** The same world when the clock reads [now]. *)
Definition at_time (now : float) (w : World) : World :=
  {| time_time := now; settings := settings w; path_home := path_home w |}.

(** [str(p / name)] for a [PosixPath] [p] given by [str(p)] and a file name
    [name]: the empty path is written ["."], and a root ends in a slash. *)
Definition path_join (p name : string) : string :=
  if String.eqb p "." then name
  else if String.eqb p "/" || String.eqb p "//" then p ++ name
  else p ++ "/" ++ name.

(** One server entry of an MCP configuration, and the mapping from server
    name to entry that [MultiServerMCPClient] takes. *)
Abbreviation server_cfg := (gmap string pyval).
Abbreviation config := (gmap string server_cfg).

(** [langchain_mcp_adapters.client.MultiServerMCPClient]: an external
    library.  The constructor takes the configuration and the keyword
    arguments and may reject them; [get_tools] talks to the servers: it
    returns the tools or raises, and time passes meanwhile. *)
Record Client : Type := {
  connections : config;
  client_options : gmap string pyval;
}.

Class MCPClient : Type := {
  MultiServerMCPClient : config -> gmap string pyval -> outcome Client;
  client_get_tools : Client -> World -> outcome (list tool) * World;
}.

(** Truth value of a [str] and of a [dict]. *)
Definition str_truthy (s : string) : bool :=
  match s with EmptyString => false | _ => true end.

Definition dict_truthy {V : Type} (d : gmap string V) : bool :=
  negb (Nat.eqb (size d) 0).

(** Truth value of [float | None]: [None] and zero are false. *)
Definition ttl_truthy (ttl : option float) : bool :=
  match ttl with
  | None => false
  | Some t => float_truthy t
  end.

(** [sorted] on a list of [str].  Python orders strings by code point; on
    UTF-8 text that is the order of the bytes, which [String.leb] decides. *)
Definition str_le (a b : string) : Prop := String.leb a b = true.

#[global] Instance str_le_dec : RelDecision str_le :=
  fun a b => decide (String.leb a b = true).

Definition sorted (l : list string) : list string := merge_sort str_le l.

(** The keys of a [dict]. *)
Definition keys {V : Type} (d : gmap string V) : list string :=
  (map_to_list d).*1.

(* ===================================================================== *)
(** * tool_manager.py                                                     *)
(* ===================================================================== *)

Module tool_manager.

(** The part of a provider that its subclass adds. *)
Inductive provider_impl : Type :=
| MCPImpl (_server_factory : World -> outcome (option config))
          (_client_kwargs : gmap string pyval)
          (_raise_on_error : bool)
| CallableImpl (_builder : World -> outcome (option (list tool)) * World).

(** [ToolProvider] with the fields set by [ToolProvider.__init__]. *)
Record ToolProvider : Type := {
  name : string;
  description : string;
  tags : list string;
  cache_ttl : option float;
  impl : provider_impl;
}.

Definition kind (p : ToolProvider) : string :=
  match impl p with
  | MCPImpl _ _ _ => "mcp"
  | CallableImpl _ => "python"
  end.

(** [ToolProvider.__init__]: [description or ""], [tuple(tags or ())]. *)
Definition ToolProvider_init (name : string) (description : option string)
    (tags : option (list string)) (cache_ttl : option float)
    (impl : provider_impl) : ToolProvider :=
  {| name := name;
     description := default "" description;
     tags := default [] tags;
     cache_ttl := cache_ttl;
     impl := impl |}.

(** [MCPToolProvider.__init__]: [servers] is a mapping or a factory; a
    mapping is wrapped into a constant factory.  A factory is any callable:
    it may return a mapping or [None], or raise. *)
Definition MCPToolProvider (name : string)
    (servers : config + (World -> outcome (option config)))
    (description : option string) (tags : option (list string))
    (cache_ttl : option float) (client_kwargs : option (gmap string pyval))
    (raise_on_error : bool) : ToolProvider :=
  ToolProvider_init name description tags cache_ttl
    (MCPImpl (match servers with
              | inl mapping => fun _ => Ok (Some mapping)
              | inr factory => factory
              end)
             (default ∅ client_kwargs)
             raise_on_error).

(** [CallableToolProvider.__init__]. *)
Definition CallableToolProvider (name : string)
    (builder : World -> outcome (option (list tool)) * World)
    (description : option string) (tags : option (list string))
    (cache_ttl : option float) : ToolProvider :=
  ToolProvider_init name description tags cache_ttl (CallableImpl builder).

(** [ToolProvider.metadata]. *)
Record Metadata : Type := {
  md_name : string;
  md_kind : string;
  md_description : string;
  md_tags : list string;
  md_cache_ttl : option float;
}.

Definition metadata (p : ToolProvider) : Metadata :=
  {| md_name := name p;
     md_kind := kind p;
     md_description := description p;
     md_tags := tags p;
     md_cache_ttl := cache_ttl p |}.

Section Loading.
Context {client : MCPClient}.

(** [MCPToolProvider._build_client] (lines 83-84). *)
Definition _build_client (client_kwargs : gmap string pyval) (cfg : config)
    : outcome Client :=
  MultiServerMCPClient cfg client_kwargs.

(** [MCPToolProvider._load] (lines 86-99).  The factory is called and the
    client is built before the [try]: what they raise leaves the coroutine.
    Only [client.get_tools()] is guarded, and [except Exception] catches
    whatever it raises. *)
Definition MCP_load (name : string)
    (server_factory : World -> outcome (option config))
    (client_kwargs : gmap string pyval) (raise_on_error : bool)
    (w : World) : outcome (list tool) * World :=
  match server_factory w with
  | Raise e => (Raise (coroutine_raise e), w)
  | Ok None => (Ok [], w)
  | Ok (Some cfg) =>
      if negb (dict_truthy cfg) then (Ok [], w)
      else
        match _build_client client_kwargs cfg with
        | Raise e => (Raise (coroutine_raise e), w)
        | Ok client =>
            match client_get_tools client w with
            | (Ok tools, w') => (Ok tools, w')
            | (Raise exc, w') =>
                if raise_on_error
                then (Raise (ToolManagerError
                               ("Failed to load tools for " ++ name)
                               (Some exc)), w')
                else (Ok [], w')
            end
        end
  end.

(** [CallableToolProvider._load] (lines 119-123): an awaitable result is
    awaited, then [list(result or [])].  What the builder raises leaves the
    coroutine. *)
Definition Callable_load
    (builder : World -> outcome (option (list tool)) * World)
    (w : World) : outcome (list tool) * World :=
  match builder w with
  | (Ok result, w') => (Ok (default [] result), w')
  | (Raise e, w') => (Raise (coroutine_raise e), w')
  end.

Definition _load (p : ToolProvider) (w : World) : outcome (list tool) * World :=
  match impl p with
  | MCPImpl factory kwargs strict => MCP_load (name p) factory kwargs strict w
  | CallableImpl builder => Callable_load builder w
  end.

(** [ToolProvider.load] (lines 45-47), a coroutine of its own:
    [list(tools)] copies the sequence. *)
Definition load (p : ToolProvider) (w : World) : outcome (list tool) * World :=
  match _load p w with
  | (Ok tools, w') => (Ok tools, w')
  | (Raise e, w') => (Raise (coroutine_raise e), w')
  end.

End Loading.

(** [_CacheEntry] (lines 126-132). *)
Record _CacheEntry : Type := {
  tools : list tool;
  expires_at : option float;
}.

Definition valid (entry : _CacheEntry) (w : World) : bool :=
  match expires_at entry with
  | None => true
  | Some t => float_gt t (time_time w)     (* expires_at > time.time() *)
  end.

(** [ToolManager]: the provider registry and the cache.  The third
    attribute, [_locks], maps an event loop to its table of locks; the table
    of the loop at hand is the field [loop_locks] of [Loop] below. *)
Record ToolManager : Type := {
  _providers : gmap string ToolProvider;
  _cache : gmap string _CacheEntry;
}.

Definition ToolManager_init : ToolManager :=
  {| _providers := ∅; _cache := ∅ |}.

Definition dict_contains {V : Type} (d : gmap string V) (k : string) : bool :=
  match d !! k with Some _ => true | None => false end.

(** [ToolManager.register_provider] (lines 145-149). *)
Definition register_provider (provider : ToolProvider) (override : bool)
    (m : ToolManager) : outcome unit * ToolManager :=
  if dict_contains (_providers m) (name provider) && negb override
  then (Raise (ToolManagerError
                 ("Tool provider '" ++ name provider ++ "' already registered")
                 None), m)
  else (Ok tt,
        {| _providers := <[name provider := provider]> (_providers m);
           _cache := delete (name provider) (_cache m) |}).

(** [ToolManager.is_registered] (lines 151-152). *)
Definition is_registered (name : string) (m : ToolManager) : bool :=
  dict_contains (_providers m) name.

Definition unknown_provider (name : string) : exn :=
  ToolManagerError ("Unknown tool provider '" ++ name ++ "'") None.

(** [ToolManager.describe] (lines 154-161): the metadata and the entry
    ["cached"]. *)
Definition describe (name : string) (m : ToolManager) (w : World)
    : outcome (Metadata * bool) :=
  match _providers m !! name with
  | None => Raise (unknown_provider name)
  | Some provider =>
      Ok (metadata provider,
          match _cache m !! name with
          | Some entry => valid entry w
          | None => false
          end)
  end.

(** [ToolManager.clear_cache] (lines 196-200): [if name] is false for [None]
    and for the empty string. *)
Definition clear_cache (name : option string) (m : ToolManager)
    : outcome unit * ToolManager :=
  match name with
  | Some n =>
      if str_truthy n
      then (Ok tt, {| _providers := _providers m; _cache := delete n (_cache m) |})
      else (Ok tt, {| _providers := _providers m; _cache := ∅ |})
  | None => (Ok tt, {| _providers := _providers m; _cache := ∅ |})
  end.

(** [ToolManager.list_providers] (lines 163-164): [describe] for each
    registered name, in ascending order; the first [describe] that raises
    ends the comprehension. *)
Definition list_providers (m : ToolManager) (w : World)
    : outcome (list (Metadata * bool)) :=
  foldr (fun name rest =>
           match describe name m w with
           | Raise e => Raise e
           | Ok d =>
               match rest with
               | Ok ds => Ok (d :: ds)
               | Raise e => Raise e
               end
           end)
        (Ok []) (sorted (keys (_providers m))).

(** ** The process and the event loop *)

(** The state a call works on: the manager, the outside world, and the log
    of the calls of [provider.load()] made so far (newest first).  The log is
    an observer of the model; no code reads it. *)
Record Sys : Type := {
  manager : ToolManager;
  world : World;
  loads : list string;
}.

(** [asyncio.Lock]: the flag and the queue of waiting tasks, oldest first. *)
Record Lock : Type := {
  _locked : bool;
  _waiters : list nat;
}.

Definition Lock_init : Lock := {| _locked := false; _waiters := [] |}.

Definition no_waiter (lock : Lock) : bool :=
  match _waiters lock with [] => true | _ :: _ => false end.

(** Where a call of [get_tools_async] stands: not started, suspended in
    [lock.acquire()] (line 176), suspended in [await provider.load()] with
    the lock held (line 181), or returned.  [provider] is the local variable
    bound at line 167. *)
Inductive frame : Type :=
| Created
| AcquiringLock (provider : ToolProvider)
| AwaitingLoad (provider : ToolProvider)
| Returned (r : outcome (list tool)).

Record Task : Type := {
  arg_name : string;
  arg_refresh : bool;
  at_ : frame;
}.

(** An event loop running calls of [get_tools_async], with its lock table
    [self._locks[loop]]. *)
Record Loop : Type := {
  sys : Sys;
  loop_locks : gmap string Lock;
  tasks : list Task;
}.

(** [not refresh and entry and entry.valid()] (lines 172 and 178), with the
    tools it returns. *)
Definition cache_hit (name : string) (refresh : bool) (s : Sys)
    : option (list tool) :=
  match _cache (manager s) !! name with
  | Some entry =>
      if negb refresh && valid entry (world s) then Some (tools entry) else None
  | None => None
  end.

(** [ToolManager._lock_for] (lines 202-212): the lock of [name], created on
    first use. *)
Definition _lock_for (name : string) (locks : gmap string Lock)
    : Lock * gmap string Lock :=
  match locks !! name with
  | Some lock => (lock, locks)
  | None => (Lock_init, <[name := Lock_init]> locks)
  end.

(** [Lock.release]: reset the flag; the first waiter may now proceed.  Only
    the task that holds the lock calls it, at the end of [async with]. *)
Definition release (name : string) (locks : gmap string Lock)
    : gmap string Lock :=
  match locks !! name with
  | Some lock =>
      <[name := {| _locked := false; _waiters := _waiters lock |}]> locks
  | None => locks
  end.

(** [(time.time() + ttl) if ttl else None] (line 183). *)
Definition expiry (ttl : option float) (w : World) : option float :=
  match ttl with
  | Some t => if float_truthy t then Some (float_add (time_time w) t) else None
  | None => None
  end.

Section Coroutine.
Context {client : MCPClient}.

(** Lines 177-181, entered with the lock held: the second look at the cache,
    then the call of [provider.load()]. *)
Definition locked_section (name : string) (refresh : bool)
    (provider : ToolProvider) (s : Sys) (locks : gmap string Lock)
    : frame * Sys * gmap string Lock :=
  match cache_hit name refresh s with
  | Some ts => (Returned (Ok ts), s, release name locks)
  | None =>
      (AwaitingLoad provider,
       {| manager := manager s; world := world s; loads := name :: loads s |},
       locks)
  end.

(** Lines 167-176: from the call to the first suspension. [Lock.acquire]
    takes a free lock with no waiter at once and queues the task
    otherwise. *)
Definition start (i : nat) (name : string) (refresh : bool) (s : Sys)
    (locks : gmap string Lock) : frame * Sys * gmap string Lock :=
  match _providers (manager s) !! name with
  | None => (Returned (Raise (unknown_provider name)), s, locks)
  | Some provider =>
      match cache_hit name refresh s with
      | Some ts => (Returned (Ok ts), s, locks)
      | None =>
          let '(lock, locks) := _lock_for name locks in
          if negb (_locked lock) && no_waiter lock
          then locked_section name refresh provider s
                 (<[name := {| _locked := true; _waiters := [] |}]> locks)
          else (AcquiringLock provider, s,
                <[name := {| _locked := _locked lock;
                             _waiters := _waiters lock ++ [i] |}]> locks)
      end
  end.

(** The end of [Lock.acquire] for a queued task: it runs when the lock is
    free and the task is the oldest waiter; the task leaves the queue and
    takes the lock. *)
Definition resume_acquire (i : nat) (name : string) (refresh : bool)
    (provider : ToolProvider) (s : Sys) (locks : gmap string Lock)
    : option (frame * Sys * gmap string Lock) :=
  match locks !! name with
  | Some lock =>
      match _waiters lock with
      | j :: rest =>
          if negb (_locked lock) && Nat.eqb i j
          then Some (locked_section name refresh provider s
                       (<[name := {| _locked := true; _waiters := rest |}]> locks))
          else None
      | [] => None
      end
  | None => None
  end.

(** Lines 181-185: [provider.load()] completes.  A result is stored with its
    expiry and returned; an exception leaves the cache as it is, and leaves
    the coroutine.  Either way the lock is released. *)
Definition finish_load (name : string) (provider : ToolProvider) (s : Sys)
    (locks : gmap string Lock) : frame * Sys * gmap string Lock :=
  match load provider (world s) with
  | (Ok tools, w') =>
      (Returned (Ok tools),
       {| manager :=
            {| _providers := _providers (manager s);
               _cache := <[name := {| tools := tools;
                                      expires_at := expiry (cache_ttl provider) w' |}]>
                           (_cache (manager s)) |};
          world := w';
          loads := loads s |},
       release name locks)
  | (Raise e, w') =>
      (Returned (Raise (coroutine_raise e)),
       {| manager := manager s; world := w'; loads := loads s |},
       release name locks)
  end.

(** [ToolManager.get_tools_async] (lines 166-185) as a coroutine: the
    stretch of code that task [i] runs next, from where it stands to its
    next suspension.  There is none while the task waits for a lock that is
    not free, and none once it has returned. *)
Definition get_tools_async (i : nat) (t : Task) (s : Sys)
    (locks : gmap string Lock) : option (frame * Sys * gmap string Lock) :=
  match at_ t with
  | Created => Some (start i (arg_name t) (arg_refresh t) s locks)
  | AcquiringLock provider =>
      resume_acquire i (arg_name t) (arg_refresh t) provider s locks
  | AwaitingLoad provider =>
      Some (finish_load (arg_name t) provider s locks)
  | Returned _ => None
  end.

(** What happens next in the loop: task [i] runs up to its next
    suspension, or time passes and the clock now reads [now].  The clock is
    the wall clock: nothing is assumed about the new reading. *)
Inductive action : Type :=
| Run (i : nat)
| Clock (now : float).

Definition install (i : nat) (t : Task)
    (r : frame * Sys * gmap string Lock) (l : Loop) : Loop :=
  let '(f, s, locks) := r in
  {| sys := s;
     loop_locks := locks;
     tasks := <[i := {| arg_name := arg_name t;
                         arg_refresh := arg_refresh t;
                         at_ := f |}]> (tasks l) |}.

Definition step (a : action) (l : Loop) : option Loop :=
  match a with
  | Clock now =>
      Some {| sys := {| manager := manager (sys l);
                        world := at_time now (world (sys l));
                        loads := loads (sys l) |};
              loop_locks := loop_locks l;
              tasks := tasks l |}
  | Run i =>
      t ← tasks l !! i;
      r ← get_tools_async i t (sys l) (loop_locks l);
      Some (install i t r l)
  end.

(** A schedule is a list of actions; [exec] follows it and fails where an
    action is not possible. *)
Fixpoint exec (sched : list action) (l : Loop) : option Loop :=
  match sched with
  | [] => Some l
  | a :: sched' =>
      match step a l with
      | Some l' => exec sched' l'
      | None => None
      end
  end.

Definition result_of (i : nat) (l : Loop) : option (outcome (list tool)) :=
  match tasks l !! i with
  | Some {| at_ := Returned r |} => Some r
  | _ => None
  end.

(** [loop.run_until_complete]: run task [i] until it has returned. *)
Fixpoint run_until_complete (fuel : nat) (i : nat) (l : Loop)
    : option (outcome (list tool) * Loop) :=
  match result_of i l with
  | Some r => Some (r, l)
  | None =>
      match fuel with
      | O => None
      | S fuel' =>
          match step (Run i) l with
          | Some l' => run_until_complete fuel' i l'
          | None => None
          end
      end
  end.

Definition call (name : string) (refresh : bool) : Task :=
  {| arg_name := name; arg_refresh := refresh; at_ := Created |}.

(** [asyncio.run(self.get_tools_async(name, refresh=refresh))]: a new loop,
    with no locks yet, runs the one call and is closed. *)
Definition asyncio_run (name : string) (refresh : bool) (s : Sys)
    : option (outcome (list tool) * Sys) :=
  '(r, l) ← run_until_complete 2 0
              {| sys := s; loop_locks := ∅; tasks := [call name refresh] |};
  Some (r, sys l).

(** [ToolManager.get_tools] (lines 187-194).  [running_loop] tells whether
    [asyncio.get_running_loop()] finds a loop in the calling thread. *)
Definition get_tools (name : string) (refresh : bool) (running_loop : bool)
    (s : Sys) : option (outcome (list tool) * Sys) :=
  if running_loop
  then Some (Raise (ToolManagerError
                      "Cannot call synchronous get_tools inside a running event loop. Use 'await get_tools_async'."
                      None), s)
  else asyncio_run name refresh s.

End Coroutine.

End tool_manager.

(* ===================================================================== *)
(** * registry.py                                                         *)
(* ===================================================================== *)

Module registry.

(** The part of a spec that its subclass adds. *)
Inductive spec_variant : Type :=
| DashScopeMCP (server_name : string) (transport : string)
| StdIOMCP (server_name : string) (command : string) (args : list string)
           (env_factory : World -> outcome (option (gmap string string)))
| StaticMCP (server_name : string) (transport : string) (url : string)
            (headers : gmap string string) (extra_config : gmap string pyval).

(** [ToolSpec] with the fields set by [ToolSpec.__init__]. *)
Record ToolSpec : Type := {
  tool_name : string;
  description : string;
  tags : list string;
  cache_ttl : option float;
  variant : spec_variant;
}.

(** The three constructors.  An optional argument is [None] when the caller
    leaves it out; the default of the source is filled in. *)
Definition DashScopeMCPSpec (tool_name server_name : string)
    (transport : option string) (description : option string)
    (tags : option (list string)) (cache_ttl : option float) : ToolSpec :=
  {| tool_name := tool_name;
     description := default "" description;
     tags := default [] tags;
     cache_ttl := cache_ttl;
     variant := DashScopeMCP server_name (default "sse" transport) |}.

Definition StdIOMCPSpec (tool_name server_name command : string)
    (args : option (list string))
    (env_factory : option (World -> outcome (option (gmap string string))))
    (description : option string) (tags : option (list string))
    (cache_ttl : option float) : ToolSpec :=
  {| tool_name := tool_name;
     description := default "" description;
     tags := default [] tags;
     cache_ttl := cache_ttl;
     variant := StdIOMCP server_name command (default [] args)
                  (default (fun _ => Ok (Some ∅)) env_factory) |}.

Definition StaticMCPSpec (tool_name server_name : string)
    (transport : option string) (url : string)
    (headers : option (gmap string string))
    (extra_config : option (gmap string pyval))
    (description : option string) (tags : option (list string))
    (cache_ttl : option float) : ToolSpec :=
  {| tool_name := tool_name;
     description := default "" description;
     tags := default [] tags;
     cache_ttl := cache_ttl;
     variant := StaticMCP server_name (default "streamable_http" transport) url
                  (default ∅ headers) (default ∅ extra_config) |}.

(** [_servers] of [DashScopeMCPSpec.build_provider] (lines 58-71): no
    configuration without an API key. *)
Definition DashScope_servers (server_name transport : string) (w : World)
    : outcome (option config) :=
  let api_key := dashscope_api_key (settings w) in
  if negb (str_truthy api_key) then Ok None
  else
    let suffix := if String.eqb transport "sse" then "sse" else "mcp" in
    Ok (Some {[ server_name :=
                  {[ "transport" := PStr transport;
                     "url" := PStr ("https://dashscope.aliyuncs.com/api/v1/mcps/"
                                    ++ server_name ++ "/" ++ suffix);
                     "headers" := PDict {[ "Authorization" := "Bearer " ++ api_key ]}
                  ]} ]}).

(** [_servers] of [StdIOMCPSpec.build_provider] (lines 105-116); what
    [env_factory] raises is raised by [_servers]. *)
Definition StdIO_servers (server_name command : string) (args : list string)
    (env_factory : World -> outcome (option (gmap string string))) (w : World)
    : outcome (option config) :=
  match env_factory w with
  | Raise e => Raise e
  | Ok None => Ok None
  | Ok (Some env) =>
      Ok (Some {[ server_name :=
                    {[ "transport" := PStr "stdio";
                       "command" := PStr command;
                       "args" := PList args;
                       "env" := PDict env ]} ]})
  end.

(** The mapping built by [StaticMCPSpec.build_provider] (lines 152-158);
    [update] lets [extra_config] win. *)
Definition Static_servers (server_name transport url : string)
    (headers : gmap string string) (extra_config : gmap string pyval)
    : config :=
  let server_cfg : server_cfg :=
    {[ "transport" := PStr transport; "url" := PStr url ]} in
  let server_cfg :=
    if dict_truthy headers
    then <["headers" := PDict headers]> server_cfg
    else server_cfg in
  {[ server_name := extra_config ∪ server_cfg ]}.

(** [build_provider] of the three classes. *)
Definition build_provider (spec : ToolSpec) : tool_manager.ToolProvider :=
  match variant spec with
  | DashScopeMCP server_name transport =>
      tool_manager.MCPToolProvider (tool_name spec)
        (inr (DashScope_servers server_name transport))
        (Some (description spec))
        (Some (["dashscope"; "mcp"; transport] ++ tags spec)%list)
        (cache_ttl spec) None false
  | StdIOMCP server_name command args env_factory =>
      tool_manager.MCPToolProvider (tool_name spec)
        (inr (StdIO_servers server_name command args env_factory))
        (Some (description spec))
        (Some (["stdio"; "mcp"] ++ tags spec)%list)
        (cache_ttl spec) None false
  | StaticMCP server_name transport url headers extra_config =>
      tool_manager.MCPToolProvider (tool_name spec)
        (inl (Static_servers server_name transport url headers extra_config))
        (Some (description spec))
        (Some (["mcp"; transport] ++ tags spec)%list)
        (cache_ttl spec) None false
  end.

(** [register_spec] (lines 172-175) on the directory [_TOOL_SPECS]. *)
Definition register_spec (spec : ToolSpec) (override : bool)
    (_TOOL_SPECS : gmap string ToolSpec) : outcome unit * gmap string ToolSpec :=
  if tool_manager.dict_contains _TOOL_SPECS (tool_name spec) && negb override
  then (Raise (ToolManagerError
                 ("Tool spec '" ++ tool_name spec ++ "' already registered")
                 None), _TOOL_SPECS)
  else (Ok tt, <[tool_name spec := spec]> _TOOL_SPECS).

(** [register_callable_tool] (lines 178-196). *)
Definition register_callable_tool (name : string)
    (builder : World -> outcome (option (list tool)) * World)
    (description : string) (tags : option (list string))
    (cache_ttl : option float) (override : bool)
    (m : tool_manager.ToolManager) : outcome unit * tool_manager.ToolManager :=
  tool_manager.register_provider
    (tool_manager.CallableToolProvider name builder (Some description) tags
       cache_ttl)
    override m.

(** [ensure_tool_registered] (lines 199-206). *)
Definition ensure_tool_registered (name : string)
    (_TOOL_SPECS : gmap string ToolSpec) (m : tool_manager.ToolManager)
    : outcome unit * tool_manager.ToolManager :=
  if tool_manager.is_registered name m then (Ok tt, m)
  else
    match _TOOL_SPECS !! name with
    | None =>
        (Raise (ToolManagerError ("No tool spec registered for '" ++ name ++ "'")
                                 None), m)
    | Some spec => tool_manager.register_provider (build_provider spec) false m
    end.

Definition with_manager (m : tool_manager.ToolManager) (s : tool_manager.Sys)
    : tool_manager.Sys :=
  {| tool_manager.manager := m;
     tool_manager.world := tool_manager.world s;
     tool_manager.loads := tool_manager.loads s |}.

Section Entry.
Context {client : MCPClient}.

(** [get_tools] (lines 213-215). *)
Definition get_tools (name : string) (refresh : bool) (running_loop : bool)
    (_TOOL_SPECS : gmap string ToolSpec) (s : tool_manager.Sys)
    : option (outcome (list tool) * tool_manager.Sys) :=
  match ensure_tool_registered name _TOOL_SPECS (tool_manager.manager s) with
  | (Raise e, m) => Some (Raise e, with_manager m s)
  | (Ok _, m) =>
      tool_manager.get_tools name refresh running_loop (with_manager m s)
  end.

(** [get_tools_async] (lines 218-220): the registration is ensured at the
    call; the coroutine it returns becomes a new task of the loop, whose
    index is the result. *)
Definition get_tools_async (name : string) (refresh : bool)
    (_TOOL_SPECS : gmap string ToolSpec) (l : tool_manager.Loop)
    : outcome nat * tool_manager.Loop :=
  match ensure_tool_registered name _TOOL_SPECS
          (tool_manager.manager (tool_manager.sys l)) with
  | (Raise e, m) =>
      (Raise e,
       {| tool_manager.sys := with_manager m (tool_manager.sys l);
          tool_manager.loop_locks := tool_manager.loop_locks l;
          tool_manager.tasks := tool_manager.tasks l |})
  | (Ok _, m) =>
      (Ok (length (tool_manager.tasks l)),
       {| tool_manager.sys := with_manager m (tool_manager.sys l);
          tool_manager.loop_locks := tool_manager.loop_locks l;
          tool_manager.tasks :=
            (tool_manager.tasks l ++ [tool_manager.call name refresh])%list |})
  end.

End Entry.

(** [list_specs] (lines 209-210). *)
Definition list_specs (_TOOL_SPECS : gmap string ToolSpec) : list string :=
  sorted (keys _TOOL_SPECS).

(** The built-in specs (lines 225-386), in the order of registration. *)
Definition builtin_specs : list ToolSpec :=
  [ StdIOMCPSpec "amap_maps" "amap-maps" "npx"
      (Some ["-y"; "@amap/amap-maps-mcp-server"])
      (Some (fun w =>
         Ok (if str_truthy (amap_maps_api_key (settings w))
             then Some {[ "AMAP_MAPS_API_KEY" := amap_maps_api_key (settings w) ]}
             else None)))
      (Some "高德地图 stdio MCP server") (Some ["geospatial"; "maps"]) None;
    StdIOMCPSpec "antv_visualization_chart" "mcp-server-chart" "npx"
      (Some ["-y"; "@antv/mcp-server-chart"]) None
      (Some "AntV 官方 MCP 图表生成服务（npx @antv/mcp-server-chart）")
      (Some ["visualization"; "antv"]) None;
    DashScopeMCPSpec "aviation" "Aviation" None
      (Some "飞常准航班信息") (Some ["transport"; "flight"]) None;
    DashScopeMCPSpec "bidding_full" "market-cmapi00066410"
      (Some "streamable_http") (Some "招投标全量数据") (Some ["bidding"]) None;
    DashScopeMCPSpec "bidding_tenders" "market-cmapi00071999"
      (Some "streamable_http") (Some "水滴信用招投标") (Some ["bidding"]) None;
    DashScopeMCPSpec "enterprise_bigdata" "market-cmapi00071990"
      (Some "streamable_http") (Some "企业大数据查询") (Some ["enterprise"]) None;
    DashScopeMCPSpec "enterprise_registry" "market-cmapi029030"
      (Some "streamable_http") (Some "企业工商注册信息")
      (Some ["enterprise"; "registry"]) None;
    DashScopeMCPSpec "enterprise_risk" "market-cmapi00071991"
      (Some "streamable_http") (Some "企业风险洞察")
      (Some ["enterprise"; "risk"]) None;
    DashScopeMCPSpec "gourmet_guide" "market-cmapi00067124"
      (Some "streamable_http") (Some "美食侦探推荐") (Some ["lifestyle"]) None;
    DashScopeMCPSpec "railway_12306" "china-railway" None
      (Some "12306 车票查询") (Some ["transport"; "railway"]) None;
    DashScopeMCPSpec "supplier_management" "market-cmapi00071992"
      (Some "streamable_http") (Some "供应商管理") (Some ["supply-chain"]) None;
    DashScopeMCPSpec "tendency_software" "tendency-software" None
      (Some "通达信软件工具") (Some ["finance"]) None;
    DashScopeMCPSpec "time_tools" "TimeZone" None
      (Some "TimeZone 时区工具") (Some ["time"]) None;
    DashScopeMCPSpec "weather" "weather" None
      (Some "实时天气") (Some ["weather"]) None;
    DashScopeMCPSpec "web_search" "WebSearch" None
      (Some "DashScope WebSearch") (Some ["search"]) None;
    StdIOMCPSpec "markmap" "Markmap" "npx"
      (Some ["-y"; "@jinzcdev/markmap-mcp-server"])
      (Some (fun w =>
         match path_home w with
         | Raise e => Raise e
         | Ok home => Ok (Some {[ "MARKMAP_DIR" := path_join home "Downloads" ]})
         end))
      (Some "本地 npx 启动的 Markmap 思维导图 MCP 服务（输出至 Downloads）")
      (Some ["mindmap"; "knowledge"]) None ].

(** [_TOOL_SPECS] once the module is imported: each [register_spec] call of
    the module body, in order, from the empty directory. *)
Definition _TOOL_SPECS_at_import : gmap string ToolSpec :=
  foldl (fun specs spec => (register_spec spec false specs).2) ∅ builtin_specs.

End registry.

(* ===================================================================== *)
(** * The tool modules                                                    *)
(* ===================================================================== *)

Module tool_modules.

Section AtImport.
Context {client : MCPClient}.

(** The body of a module such as [tools/weather.py] (lines 7-21), run when
    the module is imported: [ensure_tool_registered(_TOOL_NAME)], then the
    module attribute is bound to [get_tools(_TOOL_NAME, refresh=False)].
    The result is that attribute, or the exception that ends the import. *)
Definition import_tool_module (_TOOL_NAME : string) (running_loop : bool)
    (_TOOL_SPECS : gmap string registry.ToolSpec) (s : tool_manager.Sys)
    : option (outcome (list tool) * tool_manager.Sys) :=
  match registry.ensure_tool_registered _TOOL_NAME _TOOL_SPECS
          (tool_manager.manager s) with
  | (Raise e, m) => Some (Raise e, registry.with_manager m s)
  | (Ok _, m) =>
      registry.get_tools _TOOL_NAME false running_loop _TOOL_SPECS
        (registry.with_manager m s)
  end.

(** The end of [tools/bidsearch.py] (lines 376-396), for any name, builder
    and description: [register_callable_tool(_TOOL_NAME, builder=...,
    description=..., tags=...)], then the module attribute is bound to
    [get_tools(_TOOL_NAME, refresh=False)]. *)
Definition import_callable_module (_TOOL_NAME : string)
    (builder : World -> outcome (option (list tool)) * World)
    (description : string) (tags : option (list string))
    (running_loop : bool)
    (_TOOL_SPECS : gmap string registry.ToolSpec) (s : tool_manager.Sys)
    : option (outcome (list tool) * tool_manager.Sys) :=
  match registry.register_callable_tool _TOOL_NAME builder description tags
          None false (tool_manager.manager s) with
  | (Raise e, m) => Some (Raise e, registry.with_manager m s)
  | (Ok _, m) =>
      registry.get_tools _TOOL_NAME false running_loop _TOOL_SPECS
        (registry.with_manager m s)
  end.

End AtImport.

End tool_modules.

(* ===================================================================== *)
(** * Sample worlds, clients and providers                                *)
(* ===================================================================== *)

Module demo.
Import tool_manager.

(** [float(n)]: a whole number of seconds. *)
Definition seconds (n : Z) : float := float_of n 0.

(** The world [d] seconds later by the clock. *)
Definition later (d : Z) (w : World) : World :=
  at_time (float_add (time_time w) (seconds d)) w.

(** No credential is set. *)
Definition w0 : World :=
  {| time_time := seconds 100;
     settings := {| dashscope_api_key := ""; amap_maps_api_key := "" |};
     path_home := Ok "/home/agent" |}.

(** A server that answers, and one that refuses.  The samples leave the
    world as it is: the time a load takes is the time that a schedule lets
    pass, with [Clock], while the call is suspended in it. *)
Definition online : MCPClient :=
  {| MultiServerMCPClient := fun cfg kwargs =>
       Ok {| connections := cfg; client_options := kwargs |};
     client_get_tools := fun _ w => (Ok ["get_weather"; "get_forecast"], w) |}.

Definition offline : MCPClient :=
  {| MultiServerMCPClient := fun cfg kwargs =>
       Ok {| connections := cfg; client_options := kwargs |};
     client_get_tools := fun _ w =>
       (Raise (Exception "ConnectionError" "connection refused"), w) |}.

(** A local provider, and one whose builder raises. *)
Definition local_tools (ttl : option float) : ToolProvider :=
  CallableToolProvider "local"
    (fun w => (Ok (Some ["now"; "sleep"]), w)) None None ttl.

Definition broken : ToolProvider :=
  CallableToolProvider "broken"
    (fun w => (Raise (Exception "ValueError" "boom"), w)) None None None.

(** A local provider whose builder lets a [StopIteration] escape, as
    [next] does on an iterator that is exhausted. *)
Definition exhausted : ToolProvider :=
  CallableToolProvider "exhausted"
    (fun w => (Raise (StopIteration ""), w)) None None None.

(** A remote provider with a fixed server, strict or not. *)
Definition remote (strict : bool) : ToolProvider :=
  MCPToolProvider "remote"
    (inl {[ "srv" := {[ "transport" := PStr "sse";
                        "url" := PStr "https://example.org/sse" ]} ]})
    None None None None strict.

Definition manager_with (p : ToolProvider) : ToolManager :=
  (register_provider p false ToolManager_init).2.

Definition sys_with (p : ToolProvider) (w : World) : Sys :=
  {| manager := manager_with p; world := w; loads := [] |}.

(** The DashScope key is set. *)
Definition w_key : World :=
  {| time_time := seconds 200;
     settings := {| dashscope_api_key := "sk-demo"; amap_maps_api_key := "" |};
     path_home := Ok "/home/agent" |}.

(** A client whose constructor rejects its arguments. *)
Definition rejecting : MCPClient :=
  {| MultiServerMCPClient := fun _ _ =>
       Raise (Exception "TypeError" "unexpected keyword argument");
     client_get_tools := fun _ w => (Ok [], w) |}.

(** A process with two providers and a cached list for ["broken"]. *)
Definition two_providers : ToolManager :=
  {| _providers := {[ "local" := local_tools None; "broken" := broken ]};
     _cache := {[ "broken" := {| tools := ["old"]; expires_at := None |} ]} |}.

Definition sys_two : Sys :=
  {| manager := two_providers; world := w0; loads := [] |}.

(** A process whose cached list for ["local"] expired when the clock read
    50; the provider has a TTL of a minute. *)
Definition sys_stale : Sys :=
  {| manager :=
       {| _providers := {[ "local" := local_tools (Some (seconds 60)) ]};
          _cache := {[ "local" := {| tools := ["old"];
                                     expires_at := Some (seconds 50) |} ]} |};
     world := w0;
     loads := [] |}.

(** A process that has not registered anything yet. *)
Definition sys_init (w : World) : Sys :=
  {| manager := ToolManager_init; world := w; loads := [] |}.

(** No home directory can be determined. *)
Definition w_homeless : World :=
  {| time_time := seconds 100;
     settings := {| dashscope_api_key := ""; amap_maps_api_key := "" |};
     path_home :=
       Raise (RuntimeError "Could not determine home directory." None) |}.

(** The spec of ["weather"] as the module registers it. *)
Definition weather_spec : registry.ToolSpec :=
  registry.DashScopeMCPSpec "weather" "weather" None (Some "实时天气")
    (Some ["weather"]) None.

(** The spec of ["markmap"] as [registry.py] registers it (lines 376-386). *)
Definition markmap_spec : registry.ToolSpec :=
  registry.StdIOMCPSpec "markmap" "Markmap" "npx"
    (Some ["-y"; "@jinzcdev/markmap-mcp-server"])
    (Some (fun w =>
       match path_home w with
       | Raise e => Raise e
       | Ok home => Ok (Some {[ "MARKMAP_DIR" := path_join home "Downloads" ]})
       end))
    (Some "本地 npx 启动的 Markmap 思维导图 MCP 服务（输出至 Downloads）")
    (Some ["mindmap"; "knowledge"]) None.

(** Three calls in one loop: two for ["local"], one of them refreshing, and
    one for ["broken"]. *)
Definition mixed_calls : Loop :=
  {| sys := sys_two;
     loop_locks := ∅;
     tasks := [call "local" true; call "broken" true; call "local" false] |}.

(** The builder of [tools/bidsearch.py] (lines 372-373). *)
Definition _build_tools (w : World) : outcome (option (list tool)) * World :=
  (Ok (Some ["bid_list"; "bid_detail"; "bid_radar"]), w).

End demo.

(* ===================================================================== *)
(** * Vocabulary of the properties                                        *)
(* ===================================================================== *)

Import tool_manager.

(** The same process in another state of the world. *)
Definition at_world (w : World) (s : Sys) : Sys :=
  {| manager := manager s; world := w; loads := loads s |}.

(** An outcome that is a raised [ToolManagerError]. *)
Definition raises_ToolManagerError {A : Type} (o : outcome A) : Prop :=
  exists msg cause, o = Raise (ToolManagerError msg cause).

Section Vocabulary.
Context {client : MCPClient}.

(** What a call leaves behind when it had to load: the result of the load is
    cached and returned, or its exception is raised; one load is logged. *)
Definition after_load (name : string) (provider : ToolProvider) (s : Sys)
    : outcome (list tool) * Sys :=
  match load provider (world s) with
  | (Ok ts, w') =>
      (Ok ts,
       {| manager :=
            {| _providers := _providers (manager s);
               _cache := <[name := {| tools := ts;
                                      expires_at := expiry (cache_ttl provider) w' |}]>
                           (_cache (manager s)) |};
          world := w';
          loads := name :: loads s |})
  | (Raise e, w') =>
      (Raise e,
       {| manager := manager s; world := w'; loads := name :: loads s |})
  end.

End Vocabulary.

(** ** Calls in one loop *)

Definition is_returned (t : Task) : bool :=
  match at_ t with Returned _ => true | _ => false end.

(** Every call of the loop has returned. *)
Definition completed (l : Loop) : bool := forallb is_returned (tasks l).

(** The stretches of code a call may still run: at most three, one per
    suspension point plus the first. *)
Definition frame_work (f : frame) : nat :=
  match f with
  | Created => 3
  | AcquiringLock _ => 2
  | AwaitingLoad _ => 1
  | Returned _ => 0
  end.

Definition work (l : Loop) : nat :=
  sum_list_with (fun t => frame_work (at_ t)) (tasks l).

(** The number of [Run] actions of a schedule, and the clock readings it
    brings. *)
Fixpoint runs (sched : list action) : nat :=
  match sched with
  | [] => 0
  | Run _ :: sched' => S (runs sched')
  | Clock _ :: sched' => runs sched'
  end.

Fixpoint readings (sched : list action) : list float :=
  match sched with
  | [] => []
  | Run _ :: sched' => readings sched'
  | Clock now :: sched' => now :: readings sched'
  end.

(** The loop at the start: [k] calls [get_tools_async(name, refresh)], none
    of them started. *)
Definition concurrent_calls (name : string) (refresh : bool) (k : nat)
    (s : Sys) (locks : gmap string Lock) : Loop :=
  {| sys := s; loop_locks := locks; tasks := replicate k (call name refresh) |}.

(** ** The manager and the directory as data *)

(** Every provider is registered under its own name. *)
Definition well_keyed (m : ToolManager) : Prop :=
  forall n p, _providers m !! n = Some p -> name p = n.

(** Every cache entry belongs to a registered name. *)
Definition cache_backed (m : ToolManager) : Prop :=
  forall n, is_Some (_cache m !! n) -> is_Some (_providers m !! n).

Definition well_formed (m : ToolManager) : Prop :=
  well_keyed m /\ cache_backed m.

(** Every spec is filed under its own tool name. *)
Definition keyed_directory (specs : gmap string registry.ToolSpec) : Prop :=
  forall n spec, specs !! n = Some spec -> registry.tool_name spec = n.

(** The condition under which a spec's server factory yields nothing. *)
Definition unconfigured (spec : registry.ToolSpec) (w : World) : Prop :=
  match registry.variant spec with
  | registry.DashScopeMCP _ _ => dashscope_api_key (settings w) = ""
  | registry.StdIOMCP _ _ _ env_factory => env_factory w = Ok None
  | registry.StaticMCP _ _ _ _ _ => False
  end.

(** The condition under which a spec's server factory raises [e]: only the
    environment factory of a stdio spec can. *)
Definition env_raises (spec : registry.ToolSpec) (w : World) (e : exn) : Prop :=
  match registry.variant spec with
  | registry.StdIOMCP _ _ _ env_factory => env_factory w = Raise e
  | _ => False
  end.

(** ** Any mix of calls in one loop *)

(** Task [i] holds the lock of [n]: it is inside [async with], waiting for
    its load. *)
Definition holds_lock (l : Loop) (i : nat) (n : string) : Prop :=
  exists t p, tasks l !! i = Some t /\ arg_name t = n /\
              at_ t = AwaitingLoad p.

(** Task [i] waits for the lock of [n]. *)
Definition queued_for (l : Loop) (i : nat) (n : string) : Prop :=
  exists t p, tasks l !! i = Some t /\ arg_name t = n /\
              at_ t = AcquiringLock p.

Definition all_created (l : Loop) : Prop :=
  forall i t, tasks l !! i = Some t -> at_ t = Created.

Definition locks_free (l : Loop) : Prop :=
  forall n lk, loop_locks l !! n = Some lk -> lk = Lock_init.

(** What the lock of [n] and the tasks have to do with each other: the
    queue holds exactly the tasks that wait for the lock, each once; the
    lock is locked exactly when a task holds it; and one task at most
    holds it. *)
Record name_discipline (l : Loop) (n : string) : Prop := {
  nd_queue : forall lk, loop_locks l !! n = Some lk ->
               NoDup (_waiters lk) /\
               forall i, i ∈ _waiters lk <-> queued_for l i n;
  nd_queued : forall i, queued_for l i n -> is_Some (loop_locks l !! n);
  nd_locked : forall lk, loop_locks l !! n = Some lk ->
                _locked lk = true -> exists i, holds_lock l i n;
  nd_holder : forall i, holds_lock l i n ->
                exists lk, loop_locks l !! n = Some lk /\ _locked lk = true;
  nd_mutex : forall i j, holds_lock l i n -> holds_lock l j n -> i = j;
}.

(** The invariant of a loop that runs any calls: the discipline of every
    name, and every suspended call carries the provider registered under
    its name. *)
Record lock_discipline (l : Loop) : Prop := {
  ld_names : forall n, name_discipline l n;
  ld_provider : forall i t p, tasks l !! i = Some t ->
                  at_ t = AcquiringLock p \/ at_ t = AwaitingLoad p ->
                  _providers (manager (sys l)) !! arg_name t = Some p;
}.

(** How one stretch of a call moves its frame and the lock of its name;
    the flag tells whether the stretch calls [provider.load()]. *)
Inductive lock_move (i : nat)
    : frame -> frame -> option Lock -> option Lock -> bool -> Prop :=
| ReturnsAtOnce r old :
    lock_move i Created (Returned r) old old false
| TakesFreeLock p old :
    old = None \/ old = Some Lock_init ->
    lock_move i Created (AwaitingLoad p) old
      (Some {| _locked := true; _waiters := [] |}) true
| JoinsQueue p lk :
    _locked lk = true \/ _waiters lk <> [] ->
    lock_move i Created (AcquiringLock p) (Some lk)
      (Some {| _locked := _locked lk; _waiters := _waiters lk ++ [i] |}) false
| WakesAndReturns p rest r :
    lock_move i (AcquiringLock p) (Returned r)
      (Some {| _locked := false; _waiters := i :: rest |})
      (Some {| _locked := false; _waiters := rest |}) false
| WakesAndLoads p rest :
    lock_move i (AcquiringLock p) (AwaitingLoad p)
      (Some {| _locked := false; _waiters := i :: rest |})
      (Some {| _locked := true; _waiters := rest |}) true
| FinishesLoad p r old :
    lock_move i (AwaitingLoad p) (Returned r) old
      ((fun lk => {| _locked := false; _waiters := _waiters lk |}) <$> old)
      false.

(** The calls that have not yet reached their load. *)
Definition may_still_load (t : Task) : nat :=
  match at_ t with
  | Created | AcquiringLock _ => 1
  | AwaitingLoad _ | Returned _ => 0
  end.

Definition pending_loads (l : Loop) : nat :=
  sum_list_with may_still_load (tasks l).

(** ** Concurrent calls for one name *)

Section SingleFlightInvariant.
Context {client : MCPClient}.
Variables (name : string) (p : ToolProvider) (s0 : Sys) (R : list float).

(** Task [i] is suspended in [lock.acquire()]. *)
Definition waiting (l : Loop) (i : nat) : Prop :=
  exists t, tasks l !! i = Some t /\ at_ t = AcquiringLock p.

(** The lock of [name] has the given flag, and its queue holds exactly the
    waiting tasks, each once. *)
Definition queue_of (l : Loop) (locked : bool) (ws : list nat) : Prop :=
  loop_locks l !! name = Some {| _locked := locked; _waiters := ws |} /\
  NoDup ws /\
  forall i, i ∈ ws <-> waiting l i.

(** The entry a load stores when it returns [ts] and leaves the world [w]. *)
Definition stored (ts : list tool) (w : World) : _CacheEntry :=
  {| tools := ts; expires_at := expiry (cache_ttl p) w |}.

(** The clock readings at which the cache may be looked at before a load
    has completed: the reading at the start and the readings [R] that the
    schedule brings. *)
Definition start_readings : list float := time_time (world s0) :: R.

(** The name is uncached: the entry at the start, if there is one, has
    expired at each of these readings. *)
Definition stale_throughout : Prop :=
  forall old now,
    _cache (manager s0) !! name = Some old ->
    now ∈ start_readings ->
    valid old (at_time now (world s0)) = false.

(** The load returns a list, at whichever of these readings it starts. *)
Definition load_returns : Prop :=
  forall now,
    now ∈ start_readings ->
    exists ts w', load p (at_time now (world s0)) = (Ok ts, w').

(** The entry that the load stores does not expire while the calls run: it
    is valid at the reading the load leaves and at every reading of [R]. *)
Definition fresh_throughout : Prop :=
  forall now ts w' now',
    now ∈ start_readings ->
    load p (at_time now (world s0)) = (Ok ts, w') ->
    now' ∈ time_time w' :: R ->
    valid (stored ts w') (at_time now' w') = true.

(** The three phases the loop goes through: nobody has started to load;
    task [h] holds the lock and its load is in flight; the load, started at
    the reading [now], is done and its result [ts] is cached. *)
Inductive phase (l : Loop) : Prop :=
| Idle (now : float) :
    now ∈ start_readings ->
    world (sys l) = at_time now (world s0) ->
    _cache (manager (sys l)) !! name = _cache (manager s0) !! name ->
    loads (sys l) = loads s0 ->
    loop_locks l !! name = None \/ loop_locks l !! name = Some Lock_init ->
    (forall i t, tasks l !! i = Some t -> at_ t = Created) ->
    phase l
| InFlight (now : float) (h : nat) (ws : list nat) (th : Task) :
    now ∈ start_readings ->
    world (sys l) = at_time now (world s0) ->
    _cache (manager (sys l)) !! name = _cache (manager s0) !! name ->
    loads (sys l) = name :: loads s0 ->
    queue_of l true ws ->
    tasks l !! h = Some th ->
    at_ th = AwaitingLoad p ->
    (forall i t, tasks l !! i = Some t -> i <> h ->
       at_ t = Created \/ at_ t = AcquiringLock p) ->
    phase l
| Loaded (now : float) (ts : list tool) (w' : World) (now' : float)
         (ws : list nat) :
    now ∈ start_readings ->
    load p (at_time now (world s0)) = (Ok ts, w') ->
    now' ∈ time_time w' :: R ->
    world (sys l) = at_time now' w' ->
    _cache (manager (sys l)) !! name = Some (stored ts w') ->
    loads (sys l) = name :: loads s0 ->
    queue_of l false ws ->
    (forall i t, tasks l !! i = Some t ->
       at_ t = Created \/ at_ t = AcquiringLock p \/ at_ t = Returned (Ok ts)) ->
    phase l.

(** The invariant of a loop whose calls ask for [name] without refresh. *)
Record single_flight (l : Loop) : Prop := {
  sf_provider : _providers (manager (sys l)) !! name = Some p;
  sf_calls : forall i t, tasks l !! i = Some t ->
               arg_name t = name /\ arg_refresh t = false;
  sf_phase : phase l;
}.

(** The invariant of a loop of [k] calls that ask for [name] with
    [refresh=True]: every call that has got the lock has started a load of
    its own, and what a call returned is what a load gave. *)
Record each_loads (k : nat) (l : Loop) : Prop := {
  el_provider : _providers (manager (sys l)) !! name = Some p;
  el_calls : forall i t, tasks l !! i = Some t ->
               arg_name t = name /\ arg_refresh t = true;
  el_frames : forall i t q, tasks l !! i = Some t ->
                at_ t = AcquiringLock q \/ at_ t = AwaitingLoad q -> q = p;
  el_results : forall i r, result_of i l = Some r ->
                 exists w, r = (load p w).1;
  el_loads : exists n, loads (sys l) = (replicate n name ++ loads s0)%list /\
                       n + pending_loads l = k;
}.

End SingleFlightInvariant.

(* ===================================================================== *)
(** * Properties                                                          *)
(* ===================================================================== *)

(** ** One call in a loop of its own *)

Section OneCall.
Context {client : MCPClient}.

Lemma coroutine_raise_idemp e :
  coroutine_raise (coroutine_raise e) = coroutine_raise e.
Proof. by destruct e. Qed.

Lemma coroutine_raise_other e :
  (forall msg, e <> StopIteration msg) -> coroutine_raise e = e.
Proof. destruct e; cbn; try done. intros H. by destruct (H msg). Qed.

(** What [_load] raises has already left a coroutine. *)
Lemma _load_raises p w e w' :
  _load p w = (Raise e, w') -> coroutine_raise e = e.
Proof.
  unfold _load, MCP_load, Callable_load.
  destruct (impl p) as [factory kwargs strict | builder].
  - destruct (factory w) as [[cfg|]|e0]; [| |].
    + destruct (negb (dict_truthy cfg)); [done|].
      destruct (_build_client kwargs cfg) as [c|e0].
      * destruct (client_get_tools c w) as [[ts|exc] w1]; [done|].
        destruct strict; [|done]. by intros [= <- _].
      * intros [= <- _]. apply coroutine_raise_idemp.
    + done.
    + intros [= <- _]. apply coroutine_raise_idemp.
  - destruct (builder w) as [[r|e0] w1]; [done|].
    intros [= <- _]. apply coroutine_raise_idemp.
Qed.

(** [load] is its own coroutine, but it has nothing left to replace. *)
Lemma load_unfold p w : load p w = _load p w.
Proof.
  unfold load. destruct (_load p w) as [[ts|e] w'] eqn:Hl; [done|].
  by rewrite (_load_raises p w e w' Hl).
Qed.

Lemma load_raises p w e w' :
  load p w = (Raise e, w') -> coroutine_raise e = e.
Proof. rewrite load_unfold. apply _load_raises. Qed.

Lemma asyncio_run_unknown name refresh s :
  _providers (manager s) !! name = None ->
  asyncio_run name refresh s = Some (Raise (unknown_provider name), s).
Proof.
  intros Hp. unfold asyncio_run. cbn. unfold start. rewrite Hp. reflexivity.
Qed.

Lemma asyncio_run_hit name refresh s p ts :
  _providers (manager s) !! name = Some p ->
  cache_hit name refresh s = Some ts ->
  asyncio_run name refresh s = Some (Ok ts, s).
Proof.
  intros Hp Hc. unfold asyncio_run. cbn. unfold start. rewrite Hp, Hc.
  reflexivity.
Qed.

Lemma asyncio_run_miss name refresh s p :
  _providers (manager s) !! name = Some p ->
  cache_hit name refresh s = None ->
  asyncio_run name refresh s = Some (after_load name p s).
Proof.
  intros Hp Hc. unfold asyncio_run, after_load. cbn. unfold start.
  rewrite Hp, Hc. unfold _lock_for. rewrite lookup_empty. cbn.
  unfold locked_section. rewrite Hc. cbn. unfold finish_load. cbn.
  destruct (load p (world s)) as [[ts|e] w'] eqn:Hl; [reflexivity|].
  cbn. by rewrite (load_raises p (world s) e w' Hl).
Qed.

(** [asyncio.run] always comes back: the one call never waits for a lock. *)
Lemma asyncio_run_total name refresh s :
  exists r s', asyncio_run name refresh s = Some (r, s').
Proof.
  destruct (_providers (manager s) !! name) as [p|] eqn:Hp.
  - destruct (cache_hit name refresh s) as [ts|] eqn:Hc.
    + exists (Ok ts), s. eapply asyncio_run_hit; eauto.
    + destruct (after_load name p s) as [r s'] eqn:Ha. exists r, s'.
      rewrite <- Ha. by apply asyncio_run_miss.
  - eexists _, _. by apply asyncio_run_unknown.
Qed.

(** The cache after a successful load, looked at in a later world. *)
Lemma cache_hit_after_load name p s ts w1 w2 :
  load p (world s) = (Ok ts, w1) ->
  cache_hit name false (at_world w2 (after_load name p s).2) =
    if valid {| tools := ts; expires_at := expiry (cache_ttl p) w1 |} w2
    then Some ts else None.
Proof.
  intros Hl. unfold after_load. rewrite Hl. unfold cache_hit. cbn.
  rewrite lookup_insert_eq. reflexivity.
Qed.

Lemma providers_after_load name p s :
  _providers (manager (after_load name p s).2) = _providers (manager s).
Proof.
  unfold after_load. destruct (load p (world s)) as [[ts|e] w']; reflexivity.
Qed.

Lemma loads_after_load name p s :
  loads (after_load name p s).2 = name :: loads s.
Proof.
  unfold after_load. destruct (load p (world s)) as [[ts|e] w']; reflexivity.
Qed.

End OneCall.

(** ** Sequential calls of the blocking entry point *)

Section Sequential.
Context {client : MCPClient}.

(** A call outside any loop that finds nothing usable in the cache loads. *)
Lemma get_tools_loads name refresh p s :
  _providers (manager s) !! name = Some p ->
  cache_hit name refresh s = None ->
  get_tools name refresh false s = Some (after_load name p s).
Proof. intros Hp Hc. unfold get_tools. by apply asyncio_run_miss. Qed.

Lemma get_tools_first name refresh p s ts w1 :
  _providers (manager s) !! name = Some p ->
  cache_hit name refresh s = None ->
  load p (world s) = (Ok ts, w1) ->
  get_tools name refresh false s = Some (Ok ts, (after_load name p s).2).
Proof.
  intros Hp Hc Hl. rewrite (get_tools_loads name refresh p s Hp Hc).
  unfold after_load. rewrite Hl. reflexivity.
Qed.

(** The next call without refresh, in any later world [w2]: the entry is
    returned while it is valid, and the provider is loaded again once it is
    not. *)
Lemma get_tools_second name p s ts w1 w2 :
  _providers (manager s) !! name = Some p ->
  load p (world s) = (Ok ts, w1) ->
  get_tools name false false (at_world w2 (after_load name p s).2) =
    if valid {| tools := ts; expires_at := expiry (cache_ttl p) w1 |} w2
    then Some (Ok ts, at_world w2 (after_load name p s).2)
    else Some (after_load name p (at_world w2 (after_load name p s).2)).
Proof.
  intros Hp Hl.
  pose proof (cache_hit_after_load name p s ts w1 w2 Hl) as Hc.
  assert (_providers (manager (at_world w2 (after_load name p s).2)) !! name
          = Some p) as Hp'.
  { cbn. by rewrite providers_after_load. }
  unfold get_tools.
  destruct (valid _ w2).
  - eapply asyncio_run_hit; eauto.
  - by apply asyncio_run_miss.
Qed.

Lemma expiry_truthy t w :
  float_truthy t = true ->
  expiry (Some t) w = Some (float_add (time_time w) t).
Proof. intros Ht. unfold expiry. by rewrite Ht. Qed.

Lemma expiry_falsy ttl w : ttl_truthy ttl = false -> expiry ttl w = None.
Proof. destruct ttl as [t|]; cbn; [|done]. by intros ->. Qed.

(** The only floats equal to zero are the two zeros. *)
Lemma float_eq_zero t : float_eq t (float_of 0 0) = true -> float_truthy t = false.
Proof. destruct t as [sg|sg| |sg m e]; try done; by destruct sg. Qed.

(** C2. A provider without TTL is loaded once: after the call that loaded
    it, a call without refresh returns the cached list, whatever the world
    has become, and the process is left as it was, so no load ran. *)
Theorem no_ttl_second_call_served_from_cache name refresh p s ts w1 w2 :
  _providers (manager s) !! name = Some p ->
  cache_ttl p = None ->
  cache_hit name refresh s = None ->
  load p (world s) = (Ok ts, w1) ->
  exists s1,
    get_tools name refresh false s = Some (Ok ts, s1) /\
    loads s1 = name :: loads s /\
    get_tools name false false (at_world w2 s1) = Some (Ok ts, at_world w2 s1).
Proof.
  intros Hp Httl Hc Hl. exists (after_load name p s).2.
  split; [by eapply get_tools_first|].
  split; [apply loads_after_load|].
  rewrite (get_tools_second name p s ts w1 w2 Hp Hl), Httl.
  reflexivity.
Qed.

(** C3 (as amended). With a TTL [t] other than zero, the load stores the
    expiry [time.time() + t], a float sum taken at the instant the load
    completed.  A call without refresh made while the clock reads less than
    that stored float returns the cached list and leaves the process as it
    was; a call made once the clock has reached it loads the provider
    again, exactly once. *)
Theorem ttl_reload_at_stored_expiry name refresh p t s ts w1 w2 :
  _providers (manager s) !! name = Some p ->
  cache_ttl p = Some t ->
  float_truthy t = true ->
  cache_hit name refresh s = None ->
  load p (world s) = (Ok ts, w1) ->
  exists s1,
    get_tools name refresh false s = Some (Ok ts, s1) /\
    loads s1 = name :: loads s /\
    _cache (manager s1) !! name
      = Some {| tools := ts;
                expires_at := Some (float_add (time_time w1) t) |} /\
    (float_gt (float_add (time_time w1) t) (time_time w2) = true ->
       get_tools name false false (at_world w2 s1) =
         Some (Ok ts, at_world w2 s1)) /\
    (float_gt (float_add (time_time w1) t) (time_time w2) = false ->
       exists s2,
         get_tools name false false (at_world w2 s1) =
           Some ((load p w2).1, s2) /\
         loads s2 = name :: loads s1).
Proof.
  intros Hp Httl Ht Hc Hl. exists (after_load name p s).2.
  split; [by eapply get_tools_first|].
  split; [apply loads_after_load|].
  split.
  { unfold after_load. rewrite Hl. cbn.
    by rewrite lookup_insert_eq, Httl, (expiry_truthy t w1 Ht). }
  pose proof (get_tools_second name p s ts w1 w2 Hp Hl) as H2.
  rewrite Httl, (expiry_truthy t w1 Ht) in H2.
  change (valid _ w2) with (float_gt (float_add (time_time w1) t) (time_time w2))
    in H2.
  split; intros Hw; rewrite Hw in H2; [done|].
  rewrite H2.
  exists (after_load name p (at_world w2 (after_load name p s).2)).2.
  split; [|by rewrite loads_after_load].
  f_equal. unfold after_load at 1 3. cbn.
  destruct (load p w2) as [[ts2|e] w3]; reflexivity.
Qed.

(** C10. A TTL equal to zero is stored as "no expiry": the entry written by
    the load has no expiry instant, as with no TTL at all, and a later call
    without refresh is served from the cache in every world. *)
Theorem zero_ttl_never_expires name refresh p t s ts w1 w2 :
  _providers (manager s) !! name = Some p ->
  cache_ttl p = Some t ->
  float_eq t (float_of 0 0) = true ->
  cache_hit name refresh s = None ->
  load p (world s) = (Ok ts, w1) ->
  exists s1,
    get_tools name refresh false s = Some (Ok ts, s1) /\
    _cache (manager s1) !! name = Some {| tools := ts; expires_at := None |} /\
    expiry (cache_ttl p) w1 = expiry None w1 /\
    valid {| tools := ts; expires_at := expiry (cache_ttl p) w1 |} w2 = true /\
    get_tools name false false (at_world w2 s1) = Some (Ok ts, at_world w2 s1).
Proof.
  intros Hp Httl Ht Hc Hl. exists (after_load name p s).2.
  assert (expiry (Some t) w1 = None) as He.
  { apply expiry_falsy. cbn. by apply float_eq_zero. }
  split; [by eapply get_tools_first|].
  split.
  { unfold after_load. rewrite Hl. cbn. rewrite lookup_insert_eq, Httl, He.
    reflexivity. }
  rewrite Httl, He.
  split; [reflexivity|]. split; [reflexivity|].
  rewrite (get_tools_second name p s ts w1 w2 Hp Hl), Httl, He.
  reflexivity.
Qed.

End Sequential.

(** ** Providers *)

Section Providers.
Context {client : MCPClient}.

Lemma dict_truthy_empty {V : Type} : dict_truthy (∅ : gmap string V) = false.
Proof. unfold dict_truthy. by rewrite map_size_empty. Qed.

(** C5. A remote provider whose factory yields no configuration when the
    load runs ([None], or a mapping without entries) loads the empty list:
    nothing is raised, no server is contacted, the world is as before. *)
Theorem unconfigured_remote_loads_nothing p factory kwargs strict w :
  impl p = MCPImpl factory kwargs strict ->
  factory w = Ok None \/ factory w = Ok (Some ∅) ->
  load p w = (Ok [], w).
Proof.
  intros Hi Hf. rewrite load_unfold. unfold _load. rewrite Hi. unfold MCP_load.
  destruct Hf as [-> | ->]; [reflexivity|].
  by rewrite dict_truthy_empty.
Qed.

(** The DashScope specs are of this kind while the API key is empty. *)
Lemma dashscope_without_key_loads_nothing spec server transport w :
  registry.variant spec = registry.DashScopeMCP server transport ->
  dashscope_api_key (settings w) = "" ->
  load (registry.build_provider spec) w = (Ok [], w).
Proof.
  intros Hv Hk. rewrite load_unfold. unfold registry.build_provider.
  rewrite Hv. unfold _load, MCP_load. cbn.
  unfold registry.DashScope_servers. by rewrite Hk.
Qed.

(** C6. When the call to the server fails: a strict provider raises a
    [ToolManagerError] that wraps the failure, and the blocking entry point
    raises it to its caller without touching the cache; a provider in the
    default mode returns the empty list, and so does the entry point. *)
Theorem transport_failure_policy p factory kwargs strict w cfg c exc w' :
  impl p = MCPImpl factory kwargs strict ->
  factory w = Ok (Some cfg) ->
  dict_truthy cfg = true ->
  _build_client kwargs cfg = Ok c ->
  client_get_tools c w = (Raise exc, w') ->
  load p w =
    (if strict
     then Raise (ToolManagerError ("Failed to load tools for " ++ name p)
                                  (Some exc))
     else Ok [], w') /\
  forall n refresh s,
    _providers (manager s) !! n = Some p ->
    cache_hit n refresh s = None ->
    world s = w ->
    exists s',
      get_tools n refresh false s =
        Some (if strict
              then Raise (ToolManagerError ("Failed to load tools for " ++ name p)
                                           (Some exc))
              else Ok [], s') /\
      (strict = true -> manager s' = manager s).
Proof.
  intros Hi Hf Hd Hb Hc.
  assert (load p w =
    (if strict
     then Raise (ToolManagerError ("Failed to load tools for " ++ name p)
                                  (Some exc))
     else Ok [], w')) as Hl.
  { rewrite load_unfold. unfold _load. rewrite Hi. unfold MCP_load.
    rewrite Hf, Hd, Hb, Hc. cbn. by destruct strict. }
  split; [exact Hl|].
  intros n refresh s Hp Hh Hw.
  rewrite (get_tools_loads n refresh p s Hp Hh).
  unfold after_load. rewrite Hw, Hl.
  destruct strict.
  - eexists. split; [reflexivity|]. intros _. reflexivity.
  - eexists. split; [reflexivity|]. discriminate.
Qed.

(** C8 (as amended). When the builder of a local provider raises [e], the
    call that had to load raises what leaves the coroutine [_load]: [e]
    itself, unless [e] is a [StopIteration], which the interpreter replaces
    by a [RuntimeError] with [e] as its cause.  Either way nothing is
    downgraded to a list, and the manager (registry and cache) is exactly
    as before: no entry is created, an entry already there stays. *)
Theorem builder_exception_leaves_coroutine name refresh p builder s e w' :
  _providers (manager s) !! name = Some p ->
  impl p = CallableImpl builder ->
  cache_hit name refresh s = None ->
  builder (world s) = (Raise e, w') ->
  exists s',
    get_tools name refresh false s = Some (Raise (coroutine_raise e), s') /\
    ((forall msg, e <> StopIteration msg) -> coroutine_raise e = e) /\
    (forall msg, e = StopIteration msg ->
       coroutine_raise e
         = RuntimeError "coroutine raised StopIteration" (Some e)) /\
    manager s' = manager s /\
    _cache (manager s') !! name = _cache (manager s) !! name.
Proof.
  intros Hp Hi Hc Hb.
  rewrite (get_tools_loads name refresh p s Hp Hc).
  unfold after_load. rewrite load_unfold. unfold _load. rewrite Hi.
  unfold Callable_load. rewrite Hb. eexists. split; [reflexivity|].
  split; [apply coroutine_raise_other|].
  split; [by intros msg ->|]. split; reflexivity.
Qed.

End Providers.

(** ** The manager *)

Section Manager.
Context {client : MCPClient}.

Lemma register_provider_accepts provider override m :
  is_registered (name provider) m = false \/ override = true ->
  register_provider provider override m =
    (Ok tt,
     {| _providers := <[name provider := provider]> (_providers m);
        _cache := delete (name provider) (_cache m) |}).
Proof.
  unfold register_provider, is_registered.
  intros [-> | ->]; [reflexivity|].
  by rewrite andb_false_r.
Qed.

(** C7. Registering under a name already taken, without override, raises a
    [ToolManagerError] and leaves registry and cache as they were.  With
    override, or under a fresh name, the provider becomes the one
    registered under its name and the cache holds no entry for that name;
    the other names keep their provider and their entry. *)
Theorem register_provider_contract provider m :
  (is_registered (name provider) m = true ->
     raises_ToolManagerError (register_provider provider false m).1 /\
     (register_provider provider false m).2 = m) /\
  (forall override,
     is_registered (name provider) m = false \/ override = true ->
     (register_provider provider override m).1 = Ok tt /\
     _providers (register_provider provider override m).2 !! name provider
       = Some provider /\
     _cache (register_provider provider override m).2 !! name provider = None /\
     forall n, n <> name provider ->
       _providers (register_provider provider override m).2 !! n
         = _providers m !! n /\
       _cache (register_provider provider override m).2 !! n = _cache m !! n).
Proof.
  split.
  - intros Hr. unfold register_provider. unfold is_registered in Hr.
    rewrite Hr. cbn. split; [|reflexivity]. by eexists _, _.
  - intros override Ho. rewrite (register_provider_accepts _ _ _ Ho). cbn.
    split; [reflexivity|].
    split; [apply lookup_insert_eq|].
    split; [apply lookup_delete_eq|].
    intros n Hn. split.
    + by apply lookup_insert_ne.
    + by apply lookup_delete_ne.
Qed.

(** C9. Called inside a running event loop, the blocking entry point raises
    a [ToolManagerError] at once and the process is untouched: no cache
    access, no load.  Outside a loop it runs the call in a loop of its own
    and always returns; when the call has to load and the load succeeds, the
    loaded list is returned and one load is logged. *)
Theorem blocking_entry_point name refresh s :
  (exists msg, get_tools name refresh true s =
                 Some (Raise (ToolManagerError msg None), s)) /\
  get_tools name refresh false s = asyncio_run name refresh s /\
  (exists r s', get_tools name refresh false s = Some (r, s')) /\
  (forall p ts w1,
     _providers (manager s) !! name = Some p ->
     cache_hit name refresh s = None ->
     load p (world s) = (Ok ts, w1) ->
     exists s',
       get_tools name refresh false s = Some (Ok ts, s') /\
       loads s' = name :: loads s /\
       world s' = w1).
Proof.
  split; [by eexists|].
  split; [reflexivity|].
  split; [apply asyncio_run_total|].
  intros p ts w1 Hp Hc Hl.
  exists (after_load name p s).2.
  split; [by eapply get_tools_first|].
  unfold after_load. rewrite Hl. by split.
Qed.

(** C4 (as amended). For a name without registered provider: [describe]
    raises a [ToolManagerError]; so does the blocking [get_tools], inside or
    outside a loop, leaving the process untouched; a call of
    [get_tools_async] returns by raising it as soon as it runs;
    [ensure_tool_registered] and the module-level [get_tools] and
    [get_tools_async] raise it when the name has no spec either.
    [clear_cache] does not raise: it returns normally and leaves the
    registry alone. *)
Theorem unknown_name_operations name s specs :
  _providers (manager s) !! name = None ->
  raises_ToolManagerError (describe name (manager s) (world s)) /\
  (forall refresh running_loop,
     exists msg, get_tools name refresh running_loop s =
                   Some (Raise (ToolManagerError msg None), s)) /\
  (forall i refresh locks,
     get_tools_async i (call name refresh) s locks =
       Some (Returned (Raise (unknown_provider name)), s, locks)) /\
  (specs !! name = None ->
     raises_ToolManagerError
       (registry.ensure_tool_registered name specs (manager s)).1 /\
     (forall refresh running_loop,
        exists msg, registry.get_tools name refresh running_loop specs s =
                      Some (Raise (ToolManagerError msg None), s)) /\
     (forall refresh l, sys l = s ->
        raises_ToolManagerError
          (registry.get_tools_async name refresh specs l).1)) /\
  (clear_cache (Some name) (manager s)).1 = Ok tt /\
  _providers (clear_cache (Some name) (manager s)).2 = _providers (manager s).
Proof.
  intros Hp.
  assert (is_registered name (manager s) = false) as Hr.
  { unfold is_registered, dict_contains. by rewrite Hp. }
  split; [unfold describe; rewrite Hp; by eexists _, _|].
  split.
  { intros refresh [|]; [by eexists|].
    eexists. unfold get_tools. by apply asyncio_run_unknown. }
  split; [intros; unfold get_tools_async, start; cbn; by rewrite Hp|].
  split.
  { intros Hs.
    assert (registry.ensure_tool_registered name specs (manager s) =
            (Raise (ToolManagerError
                      ("No tool spec registered for '" ++ name ++ "'") None),
             manager s)) as He.
    { unfold registry.ensure_tool_registered. by rewrite Hr, Hs. }
    split; [rewrite He; by eexists _, _|].
    split.
    - intros refresh running_loop. eexists. unfold registry.get_tools.
      rewrite He. by destruct s.
    - intros refresh l <-. unfold registry.get_tools_async. rewrite He.
      by eexists _, _. }
  unfold clear_cache. by destruct (str_truthy name).
Qed.

End Manager.

(** ** The event loop *)

Section EventLoop.
Context {client : MCPClient}.

Lemma step_run i l l' :
  step (Run i) l = Some l' ->
  exists t r,
    tasks l !! i = Some t /\ l' = install i t r l /\
    match at_ t with
    | Created =>
        r = start i (arg_name t) (arg_refresh t) (sys l) (loop_locks l)
    | AcquiringLock q =>
        resume_acquire i (arg_name t) (arg_refresh t) q (sys l) (loop_locks l)
          = Some r
    | AwaitingLoad q =>
        r = finish_load (arg_name t) q (sys l) (loop_locks l)
    | Returned _ => False
    end.
Proof.
  unfold step. intros Hs.
  destruct (tasks l !! i) as [t|] eqn:Ht; [|done]. cbn in Hs.
  destruct (get_tools_async i t (sys l) (loop_locks l)) as [r|] eqn:Hr;
    [|done].
  cbn in Hs. exists t, r. split; [done|]. split; [by inversion Hs|].
  unfold get_tools_async in Hr. destruct (at_ t); by simplify_eq.
Qed.

Lemma run_enabled i l t r :
  tasks l !! i = Some t ->
  get_tools_async i t (sys l) (loop_locks l) = Some r ->
  step (Run i) l = Some (install i t r l).
Proof. intros Ht Hr. unfold step. rewrite Ht. cbn. by rewrite Hr. Qed.

Lemma sum_list_with_insert {A} (f : A -> nat) (l : list A) i x y :
  l !! i = Some x ->
  sum_list_with f (<[i:=y]> l) + f x = sum_list_with f l + f y.
Proof.
  revert i. induction l as [|a l IH]; intros [|i] Hl; try done.
  - simplify_eq/=. lia.
  - cbn [lookup list_lookup] in Hl. specialize (IH i Hl).
    change (<[S i:=y]> (a :: l)) with (a :: <[i:=y]> l).
    cbn [sum_list_with]. lia.
Qed.

Lemma locked_section_work name refresh q s locks :
  frame_work (locked_section name refresh q s locks).1.1 <= 1.
Proof.
  unfold locked_section. destruct (cache_hit name refresh s); cbn; lia.
Qed.

Lemma start_work i name refresh s locks :
  frame_work (start i name refresh s locks).1.1 <= 2.
Proof.
  unfold start.
  destruct (_providers (manager s) !! name); [|cbn; lia].
  destruct (cache_hit name refresh s); [cbn; lia|].
  destruct (_lock_for name locks) as [lock locks'].
  destruct (negb (_locked lock) && no_waiter lock); [|cbn; lia].
  pose proof (locked_section_work name refresh t s
    (<[name:={| _locked := true; _waiters := [] |}]> locks')). lia.
Qed.

Lemma resume_acquire_work i name refresh q s locks r :
  resume_acquire i name refresh q s locks = Some r ->
  frame_work r.1.1 <= 1.
Proof.
  unfold resume_acquire.
  destruct (locks !! name) as [lock|]; [|done].
  destruct (_waiters lock) as [|j rest]; [done|].
  destruct (negb (_locked lock) && (i =? j)%nat); [|done].
  intros [= <-]. apply locked_section_work.
Qed.

Lemma finish_load_work name q s locks :
  frame_work (finish_load name q s locks).1.1 = 0.
Proof.
  unfold finish_load. by destruct (load q (world s)) as [[ts|e] w'].
Qed.

Lemma step_run_work i l l' :
  step (Run i) l = Some l' -> work l' < work l.
Proof.
  intros (t & [[f s] locks] & Ht & -> & Hr)%step_run.
  unfold work. cbn.
  pose proof (sum_list_with_insert (fun t => frame_work (at_ t)) (tasks l) i t
    {| arg_name := arg_name t; arg_refresh := arg_refresh t; at_ := f |} Ht) as Hsum.
  cbn in Hsum.
  enough (frame_work f < frame_work (at_ t)) by lia.
  destruct (at_ t) as [|q|q|r0].
  - pose proof (start_work i (arg_name t) (arg_refresh t) (sys l) (loop_locks l)).
    rewrite <- Hr in *. cbn in *. lia.
  - apply resume_acquire_work in Hr. cbn in *. lia.
  - pose proof (finish_load_work (arg_name t) q (sys l) (loop_locks l)).
    rewrite <- Hr in *. cbn in *. lia.
  - done.
Qed.

Lemma step_clock_work now l l' :
  step (Clock now) l = Some l' -> work l' = work l.
Proof. cbn. by intros [= <-]. Qed.

(** An executable schedule runs the calls at most as often as there is work. *)
Lemma exec_runs_bounded sched l l' :
  exec sched l = Some l' -> runs sched + work l' <= work l.
Proof.
  revert l. induction sched as [|a sched IH]; intros l; cbn.
  - intros [= ->]. lia.
  - destruct (step a l) as [l1|] eqn:Hs; [|done]. intros He.
    specialize (IH l1 He). destruct a as [i|now].
    + apply step_run_work in Hs. lia.
    + apply step_clock_work in Hs. lia.
Qed.

Lemma work_concurrent_calls name refresh k s locks :
  work (concurrent_calls name refresh k s locks) = 3 * k.
Proof.
  unfold work. cbn. induction k as [|k IH]; cbn; [done|]. rewrite IH. lia.
Qed.

Lemma exec_cons a sched l :
  exec (a :: sched) l = step a l ≫= exec sched.
Proof. cbn [exec]. by destruct (step a l). Qed.


Lemma lookup_install i t f s locks l j tj :
  tasks l !! i = Some t ->
  tasks (install i t (f, s, locks) l) !! j = Some tj ->
  (j = i /\ tj = {| arg_name := arg_name t; arg_refresh := arg_refresh t;
                    at_ := f |}) \/
  (j <> i /\ tasks l !! j = Some tj).
Proof.
  intros Ht. cbn. rewrite list_lookup_insert_Some.
  intros [(-> & <- & _) | (Hne & Hj)]; [by left|right; by split].
Qed.

Lemma lookup_install_eq i t f s locks l :
  tasks l !! i = Some t ->
  tasks (install i t (f, s, locks) l) !! i =
    Some {| arg_name := arg_name t; arg_refresh := arg_refresh t; at_ := f |}.
Proof.
  intros Ht. cbn. apply list_lookup_insert_eq. by eapply lookup_lt_Some.
Qed.

Lemma lookup_install_ne i t r l j :
  j <> i -> tasks (install i t r l) !! j = tasks l !! j.
Proof.
  intros Hne. destruct r as [[f s] locks]. cbn.
  by apply list_lookup_insert_ne.
Qed.

Lemma waiting_install p i t f s locks l j :
  tasks l !! i = Some t ->
  waiting p (install i t (f, s, locks) l) j <->
  (j = i /\ f = AcquiringLock p) \/ (j <> i /\ waiting p l j).
Proof.
  intros Ht. unfold waiting. split.
  - intros (tj & Hj & Hf).
    destruct (lookup_install _ _ _ _ _ _ _ _ Ht Hj) as [[-> ->] | [Hne Hj']].
    + left. by split.
    + right. split; [done|]. by exists tj.
  - intros [[-> ->] | (Hne & tj & Hj & Hf)].
    + eexists. split; [by apply lookup_install_eq|done].
    + exists tj. split; [|done]. by rewrite lookup_install_ne.
Qed.

Lemma cache_hit_absent name refresh s :
  _cache (manager s) !! name = None -> cache_hit name refresh s = None.
Proof. intros Hc. unfold cache_hit. by rewrite Hc. Qed.

Lemma completed_lookup l i t :
  completed l = true -> tasks l !! i = Some t -> is_returned t = true.
Proof.
  unfold completed. rewrite forallb_forall. intros Hall Ht.
  apply Hall. apply list_elem_of_In. by eapply list_elem_of_lookup_2.
Qed.

Lemma not_completed_lookup l :
  completed l = false -> exists i t, tasks l !! i = Some t /\ is_returned t = false.
Proof.
  unfold completed. induction (tasks l) as [|t ts IH]; cbn; [done|].
  destruct (is_returned t) eqn:Hrt; cbn.
  - intros (i & t' & Hi & Hf)%IH. by exists (S i), t'.
  - intros _. by exists 0, t.
Qed.

Lemma run_created i l t :
  tasks l !! i = Some t -> at_ t = Created ->
  exists l', step (Run i) l = Some l'.
Proof.
  intros Ht Hf. eexists. eapply run_enabled; [done|].
  unfold get_tools_async. by rewrite Hf.
Qed.

Lemma run_awaiting_load i l t q :
  tasks l !! i = Some t -> at_ t = AwaitingLoad q ->
  exists l', step (Run i) l = Some l'.
Proof.
  intros Ht Hf. eexists. eapply run_enabled; [done|].
  unfold get_tools_async. by rewrite Hf.
Qed.

Lemma cache_hit_refresh name s : cache_hit name true s = None.
Proof. unfold cache_hit. by destruct (_cache (manager s) !! name). Qed.

Lemma exec_length sched l l' :
  exec sched l = Some l' -> length (tasks l') = length (tasks l).
Proof.
  revert l. induction sched as [|a sched IH]; intros l; cbn.
  - by intros [= <-].
  - destruct (step a l) as [l1|] eqn:Hs; [|done]. intros He.
    rewrite (IH l1 He). destruct a as [i|now].
    + apply step_run in Hs as (t & [[f s] locks] & Ht & -> & _). cbn.
      apply length_insert.
    + cbn in Hs. by simplify_eq.
Qed.

End EventLoop.

(** ** Any calls in one loop *)

Section Moves.
Context {client : MCPClient}.

Lemma release_lookup n locks m :
  release n locks !! m =
    if decide (n = m)
    then (fun lk => {| _locked := false; _waiters := _waiters lk |}) <$> locks !! n
    else locks !! m.
Proof.
  unfold release. destruct (locks !! n) as [lk|] eqn:Hl.
  - rewrite lookup_insert. case_decide; [done|done].
  - case_decide; [subst; by rewrite Hl|done].
Qed.

Lemma locked_section_moves n rf p s locks f s' locks' :
  locked_section n rf p s locks = (f, s', locks') ->
  _providers (manager s') = _providers (manager s) /\
  ((exists r, f = Returned r /\ locks' = release n locks /\ loads s' = loads s) \/
   (f = AwaitingLoad p /\ locks' = locks /\ loads s' = n :: loads s)).
Proof.
  unfold locked_section. destruct (cache_hit n rf s) as [ts|].
  - intros [= <- <- <-]. split; [done|]. left. by eexists.
  - intros [= <- <- <-]. split; [done|]. by right.
Qed.

Lemma locked_section_miss n rf p s locks :
  cache_hit n rf s = None ->
  locked_section n rf p s locks =
    (AwaitingLoad p,
     {| manager := manager s; world := world s; loads := n :: loads s |},
     locks).
Proof. intros Hc. unfold locked_section. by rewrite Hc. Qed.

Lemma free_lock lk :
  negb (_locked lk) && no_waiter lk = true -> lk = Lock_init.
Proof.
  destruct lk as [[|] [|j ws]]; cbn; done.
Qed.

Lemma busy_lock lk :
  negb (_locked lk) && no_waiter lk = false ->
  _locked lk = true \/ _waiters lk <> [].
Proof.
  destruct lk as [[|] [|j ws]]; cbn; intros; try done; auto.
Qed.

(** What a stretch of task [i] does to the loop. *)
Lemma step_run_moves i l l' :
  step (Run i) l = Some l' ->
  exists t f b,
    tasks l !! i = Some t /\
    tasks l' = <[i := {| arg_name := arg_name t;
                         arg_refresh := arg_refresh t;
                         at_ := f |}]> (tasks l) /\
    _providers (manager (sys l')) = _providers (manager (sys l)) /\
    (forall m, m <> arg_name t -> loop_locks l' !! m = loop_locks l !! m) /\
    lock_move i (at_ t) f (loop_locks l !! arg_name t)
      (loop_locks l' !! arg_name t) b /\
    loads (sys l') = (if b then arg_name t :: loads (sys l) else loads (sys l)) /\
    (at_ t = Created ->
     forall p, f = AwaitingLoad p \/ f = AcquiringLock p ->
               _providers (manager (sys l)) !! arg_name t = Some p).
Proof.
  intros (t & [[f s'] locks'] & Ht & -> & Hr)%step_run.
  exists t, f. cbn.
  destruct (at_ t) as [|q|q|r0] eqn:Hat; [| | |done].
  - (* from the call to the first suspension *)
    unfold start in Hr.
    destruct (_providers (manager (sys l)) !! arg_name t) as [p|] eqn:Hp.
    + destruct (cache_hit (arg_name t) (arg_refresh t) (sys l)) as [ts|] eqn:Hc.
      * simplify_eq. exists false. split_and!; try done; [constructor|].
        by intros _ p' [? | ?].
      * unfold _lock_for in Hr.
        destruct (loop_locks l !! arg_name t) as [lk|] eqn:Hlk.
        -- destruct (negb (_locked lk) && no_waiter lk) eqn:Hfree.
           ++ rewrite (locked_section_miss _ _ _ _ _ Hc) in Hr. simplify_eq.
              exists true. split_and!; try done.
              ** intros m Hm. by rewrite lookup_insert_ne.
              ** rewrite lookup_insert_eq. constructor. right.
                 by rewrite (free_lock _ Hfree).
              ** intros _ p' [[= <-] | ?]; done.
           ++ simplify_eq. exists false. split_and!; try done.
              ** intros m Hm. by rewrite lookup_insert_ne.
              ** rewrite lookup_insert_eq. constructor. by apply busy_lock.
              ** intros _ p' [? | [= <-]]; done.
        -- cbn in Hr. rewrite (locked_section_miss _ _ _ _ _ Hc) in Hr.
           simplify_eq. exists true. split_and!; try done.
           ** intros m Hm. by rewrite !lookup_insert_ne.
           ** rewrite lookup_insert_eq. constructor. by left.
           ** intros _ p' [[= <-] | ?]; done.
    + simplify_eq. exists false. split_and!; try done; [constructor|].
      by intros _ p' [? | ?].
  - (* the end of [lock.acquire()] *)
    unfold resume_acquire in Hr.
    destruct (loop_locks l !! arg_name t) as [lk|] eqn:Hlk; [|done].
    destruct lk as [lkd [|j rest]]; cbn in Hr; [done|].
    destruct lkd; cbn in Hr; [done|].
    destruct (Nat.eqb_spec i j) as [<- | Hij]; [|done].
    unfold locked_section in Hr.
    destruct (cache_hit (arg_name t) (arg_refresh t) (sys l)) as [ts|] eqn:Hc.
    + simplify_eq. exists false. split_and!; try done.
      * intros m Hm. rewrite release_lookup. case_decide; [done|].
        by rewrite lookup_insert_ne.
      * rewrite release_lookup. case_decide; [|done].
        rewrite lookup_insert_eq. cbn. constructor.
    + simplify_eq. exists true. split_and!; try done.
      * intros m Hm. by rewrite lookup_insert_ne.
      * rewrite lookup_insert_eq. constructor.
  - (* the load completes *)
    unfold finish_load in Hr.
    destruct (load q (world (sys l))) as [[ts|e] w'];
      simplify_eq; exists false; split_and!; try done.
    + intros m Hm. rewrite release_lookup. by case_decide.
    + rewrite release_lookup. case_decide; [|done]. constructor.
    + intros m Hm. rewrite release_lookup. by case_decide.
    + rewrite release_lookup. case_decide; [|done]. constructor.
Qed.

End Moves.

Section Discipline.
Context {client : MCPClient}.

Lemma updated_task (ts : list Task) i t t' j tj :
  ts !! i = Some t ->
  <[i:=t']> ts !! j = Some tj <->
  (j = i /\ tj = t') \/ (j <> i /\ ts !! j = Some tj).
Proof.
  intros Ht. rewrite list_lookup_insert_Some. split.
  - intros [(-> & -> & _) | (? & ?)]; [by left|right; by split].
  - intros [(-> & ->) | (? & ?)]; [left|right; by split].
    split; [done|]. split; [done|]. by eapply lookup_lt_Some.
Qed.

Lemma holds_lock_update l l' i t f j m :
  tasks l !! i = Some t ->
  tasks l' = <[i := {| arg_name := arg_name t; arg_refresh := arg_refresh t;
                       at_ := f |}]> (tasks l) ->
  holds_lock l' j m <->
  (j = i /\ arg_name t = m /\ exists p, f = AwaitingLoad p) \/
  (j <> i /\ holds_lock l j m).
Proof.
  intros Ht Hl'. unfold holds_lock. rewrite Hl'. split.
  - intros (tj & p & Hj & Hn & Hf).
    apply (updated_task _ _ _ _ _ _ Ht) in Hj as [(-> & ->) | (Hne & Hj)].
    + left. cbn in *. split; [done|]. split; [done|]. by exists p.
    + right. split; [done|]. by exists tj, p.
  - intros [(-> & Hn & p & ->) | (Hne & tj & p & Hj & Hn & Hf)].
    + eexists _, p. split; [apply (updated_task _ _ _ _ _ _ Ht); by left|done].
    + exists tj, p. split; [apply (updated_task _ _ _ _ _ _ Ht); by right|done].
Qed.

Lemma queued_for_update l l' i t f j m :
  tasks l !! i = Some t ->
  tasks l' = <[i := {| arg_name := arg_name t; arg_refresh := arg_refresh t;
                       at_ := f |}]> (tasks l) ->
  queued_for l' j m <->
  (j = i /\ arg_name t = m /\ exists p, f = AcquiringLock p) \/
  (j <> i /\ queued_for l j m).
Proof.
  intros Ht Hl'. unfold queued_for. rewrite Hl'. split.
  - intros (tj & p & Hj & Hn & Hf).
    apply (updated_task _ _ _ _ _ _ Ht) in Hj as [(-> & ->) | (Hne & Hj)].
    + left. cbn in *. split; [done|]. split; [done|]. by exists p.
    + right. split; [done|]. by exists tj, p.
  - intros [(-> & Hn & p & ->) | (Hne & tj & p & Hj & Hn & Hf)].
    + eexists _, p. split; [apply (updated_task _ _ _ _ _ _ Ht); by left|done].
    + exists tj, p. split; [apply (updated_task _ _ _ _ _ _ Ht); by right|done].
Qed.

Lemma holds_lock_frame l i t m :
  tasks l !! i = Some t ->
  holds_lock l i m <-> arg_name t = m /\ exists p, at_ t = AwaitingLoad p.
Proof.
  intros Ht. unfold holds_lock. split.
  - intros (t' & p & Ht' & Hn & Hf). simplify_eq. split; [done|by exists p].
  - intros (Hn & p & Hf). by exists t, p.
Qed.

Lemma queued_for_frame l i t m :
  tasks l !! i = Some t ->
  queued_for l i m <-> arg_name t = m /\ exists p, at_ t = AcquiringLock p.
Proof.
  intros Ht. unfold queued_for. split.
  - intros (t' & p & Ht' & Hn & Hf). simplify_eq. split; [done|by exists p].
  - intros (Hn & p & Hf). by exists t, p.
Qed.

Lemma lock_discipline_start l :
  all_created l -> locks_free l -> lock_discipline l.
Proof.
  intros Hc Hf.
  assert (forall i n, ~ holds_lock l i n) as Hh.
  { intros i n (t & p & Ht & _ & Hat). by rewrite (Hc i t Ht) in Hat. }
  assert (forall i n, ~ queued_for l i n) as Hq.
  { intros i n (t & p & Ht & _ & Hat). by rewrite (Hc i t Ht) in Hat. }
  split.
  - intros n. split.
    + intros lk Hlk. rewrite (Hf n lk Hlk). cbn. split; [constructor|].
      intros i. split; [by intros ?%elem_of_nil|by intros ?%Hq].
    + by intros i ?%Hq.
    + intros lk Hlk. by rewrite (Hf n lk Hlk).
    + by intros i ?%Hh.
    + by intros i j ?%Hh.
  - intros i t p Ht. rewrite (Hc i t Ht). by intros [? | ?].
Qed.

Lemma lock_discipline_clock now l l' :
  lock_discipline l -> step (Clock now) l = Some l' -> lock_discipline l'.
Proof.
  intros [H1 H2]. cbn.
  intros [= <-]. split; [|done]. intros n. by destruct (H1 n).
Qed.

(** A name whose lock and tasks a stretch leaves alone. *)
Lemma name_discipline_same l l' m :
  loop_locks l' !! m = loop_locks l !! m ->
  (forall j, holds_lock l' j m <-> holds_lock l j m) ->
  (forall j, queued_for l' j m <-> queued_for l j m) ->
  name_discipline l m -> name_discipline l' m.
Proof.
  intros Hl Hh Hq [H1 H2 H3 H4 H5]. split.
  - intros lk. rewrite Hl. intros [? Hm]%H1. split; [done|].
    intros i. by rewrite Hm, Hq.
  - intros i. rewrite Hl, Hq. apply H2.
  - intros lk. rewrite Hl. intros Hlk Hlocked.
    destruct (H3 lk Hlk Hlocked) as [i Hi]. exists i. by apply Hh.
  - intros i. rewrite Hl, Hh. apply H4.
  - intros i j. rewrite !Hh. apply H5.
Qed.

End Discipline.

Section DisciplineKept.
Context {client : MCPClient}.

Lemma lock_discipline_run i l l' :
  lock_discipline l -> step (Run i) l = Some l' -> lock_discipline l'.
Proof.
  intros [Hnames Hprov]
    (t & f & b & Ht & Htasks & Hpr & Hother & Hmove & _ & Hnew)%step_run_moves.
  pose proof (fun j m => holds_lock_update l l' i t f j m Ht Htasks) as HH.
  pose proof (fun j m => queued_for_update l l' i t f j m Ht Htasks) as HQ.
  pose proof (fun m => holds_lock_frame l i t m Ht) as HHi.
  pose proof (fun m => queued_for_frame l i t m Ht) as HQi.
  split.
  2:{ intros j tj p Hj Hf. rewrite Hpr. rewrite Htasks in Hj.
      apply (updated_task _ _ _ _ _ _ Ht) in Hj as [(-> & ->) | (Hne & Hj)];
        [|by eapply Hprov].
      cbn in *. destruct (at_ t) as [|q|q|r0] eqn:Hat.
      - apply Hnew; [done|]. destruct Hf; auto.
      - inversion Hmove; subst; destruct Hf as [? | ?]; simplify_eq.
        apply (Hprov i t p Ht). rewrite Hat. by left.
      - inversion Hmove; subst; by destruct Hf.
      - inversion Hmove. }
  intros m. destruct (decide (m = arg_name t)) as [-> | Hm].
  2:{ apply (name_discipline_same l l' m); [by apply Hother| | |done].
      - intros j. rewrite HH. split.
        + intros [(_ & ? & _) | (_ & ?)]; done.
        + intros Hj. right. split; [|done]. intros ->.
          apply HHi in Hj as [? _]. done.
      - intros j. rewrite HQ. split.
        + intros [(_ & ? & _) | (_ & ?)]; done.
        + intros Hj. right. split; [|done]. intros ->.
          apply HQi in Hj as [? _]. done. }
  destruct (Hnames (arg_name t)) as [Hqueue Hqueued Hlocked Hholder Hmutex].
  remember (at_ t) as before eqn:Hbefore.
  remember (loop_locks l !! arg_name t) as old eqn:Hold.
  remember (loop_locks l' !! arg_name t) as new eqn:Hnew'.
  symmetry in Hbefore, Hold, Hnew'.
  assert (forall j, holds_lock l i (arg_name t) -> holds_lock l j (arg_name t) -> j = i)
    as Honly by (intros j Hi Hj; by eapply Hmutex).
  destruct Hmove as [r old | p old Hfree | p lk Hbusy | p rest r | p rest | p r old].
  - (* returns at once *)
    apply (name_discipline_same l l' _); [congruence| | |done].
    + intros j. rewrite HH. split.
      * intros [(_ & _ & ? & ?) | (_ & ?)]; done.
      * intros Hj. right. split; [|done]. intros ->.
        apply HHi in Hj as (_ & ? & ?). congruence.
    + intros j. rewrite HQ. split.
      * intros [(_ & _ & ? & ?) | (_ & ?)]; done.
      * intros Hj. right. split; [|done]. intros ->.
        apply HQi in Hj as (_ & ? & ?). congruence.
  - (* takes the free lock *)
    assert (forall j, ~ holds_lock l j (arg_name t)) as Hnoh.
    { intros j (lk & Hlk & Hlkd)%Hholder.
      destruct Hfree as [-> | ->]; by simplify_eq. }
    assert (forall j, ~ queued_for l j (arg_name t)) as Hnoq.
    { intros j Hj. destruct Hfree as [-> | ->].
      - by destruct (Hqueued j Hj).
      - destruct (Hqueue _ eq_refl) as [_ Hmem]. apply Hmem in Hj.
        by apply elem_of_nil in Hj. }
    split.
    + intros lk. rewrite Hnew'. intros [= <-]. cbn. split; [constructor|].
      intros j. rewrite HQ. split; [by intros ?%elem_of_nil|].
      intros [(_ & _ & ? & ?) | (_ & ?%Hnoq)]; done.
    + intros j. rewrite HQ.
      intros [(_ & _ & ? & ?) | (_ & ?%Hnoq)]; done.
    + intros lk _ _. exists i. apply HH. left. split; [done|]. split; [done|].
      by exists p.
    + intros j _. rewrite Hnew'. by eexists.
    + intros j k. rewrite !HH.
      intros [(-> & _) | (_ & ?%Hnoh)] [(-> & _) | (_ & ?%Hnoh)]; done.
  - (* joins the queue *)
    assert (~ queued_for l i (arg_name t)) as Hiq.
    { intros (_ & ? & ?)%HQi. congruence. }
    assert (forall j, holds_lock l' j (arg_name t) <-> holds_lock l j (arg_name t))
      as Hsame.
    { intros j. rewrite HH. split.
      - intros [(_ & _ & ? & ?) | (_ & ?)]; done.
      - intros Hj. right. split; [|done]. intros ->.
        apply HHi in Hj as (_ & ? & ?). congruence. }
    destruct (Hqueue lk eq_refl) as [Hnd Hmem].
    split.
    + intros lk'. rewrite Hnew'. intros [= <-]. cbn. split.
      * apply NoDup_app. split; [done|]. split; [|apply NoDup_singleton].
        intros x Hx ->%list_elem_of_singleton. by apply Hiq, Hmem.
      * intros j. rewrite elem_of_app, list_elem_of_singleton, HQ, Hmem.
        split.
        -- intros [Hj | ->].
           ++ right. split; [|done]. by intros ->.
           ++ left. split; [done|]. split; [done|]. by exists p.
        -- intros [(-> & _) | (_ & ?)]; [by right|by left].
    + intros j _. rewrite Hnew'. by eexists.
    + intros lk'. rewrite Hnew'. intros [= <-]. cbn. intros Hlkd.
      destruct (Hlocked lk eq_refl Hlkd) as [j Hj]. exists j. by apply Hsame.
    + intros j Hj%Hsame. destruct (Hholder j Hj) as (lk' & Hlk' & Hlkd).
      simplify_eq. rewrite Hnew'. eexists. split; [done|]. done.
    + intros j k. rewrite !Hsame. apply Hmutex.
  - (* wakes up and returns *)
    destruct (Hqueue _ eq_refl) as [[Hirest Hnd]%NoDup_cons Hmem]. cbn in *.
    assert (forall j, ~ holds_lock l' j (arg_name t)) as Hnoh.
    { intros j. rewrite HH. intros [(_ & _ & ? & ?) | (_ & Hj)]; [done|].
      apply Hholder in Hj as (lk & Hlk & Hlkd). by simplify_eq. }
    split.
    + intros lk. rewrite Hnew'. intros [= <-]. cbn. split; [done|].
      intros j. rewrite HQ, <- Hmem, elem_of_cons. split.
      * intros Hj. right. split; [by intros ->|by right].
      * intros [(_ & _ & ? & ?) | (Hne & [-> | ?])]; done.
    + intros j _. rewrite Hnew'. by eexists.
    + intros lk. rewrite Hnew'. by intros [= <-].
    + by intros j ?%Hnoh.
    + by intros j k ?%Hnoh.
  - (* wakes up and loads *)
    destruct (Hqueue _ eq_refl) as [[Hirest Hnd]%NoDup_cons Hmem]. cbn in *.
    assert (forall j, holds_lock l' j (arg_name t) -> j = i) as Hnoh.
    { intros j. rewrite HH. intros [(-> & _) | (_ & Hj)]; [done|].
      apply Hholder in Hj as (lk & Hlk & Hlkd). by simplify_eq. }
    split.
    + intros lk. rewrite Hnew'. intros [= <-]. cbn. split; [done|].
      intros j. rewrite HQ, <- Hmem, elem_of_cons. split.
      * intros Hj. right. split; [by intros ->|by right].
      * intros [(_ & _ & ? & ?) | (Hne & [-> | ?])]; done.
    + intros j _. rewrite Hnew'. by eexists.
    + intros lk _ _. exists i. apply HH. left. split; [done|]. split; [done|].
      by exists p.
    + intros j _. rewrite Hnew'. by eexists.
    + intros j k Hj Hk. by rewrite (Hnoh j Hj), (Hnoh k Hk).
  - (* the load completes *)
    assert (holds_lock l i (arg_name t)) as Hi.
    { apply HHi. split; [done|]. by exists p. }
    destruct (Hholder i Hi) as (lk & -> & Hlkd). cbn in Hnew'.
    destruct (Hqueue _ eq_refl) as [Hnd Hmem].
    assert (forall j, ~ holds_lock l' j (arg_name t)) as Hnoh.
    { intros j. rewrite HH. intros [(_ & _ & ? & ?) | (Hne & Hj)]; [done|].
      by apply Hne, Honly. }
    assert (forall j, queued_for l' j (arg_name t) <-> queued_for l j (arg_name t))
      as Hsame.
    { intros j. rewrite HQ. split.
      - intros [(_ & _ & ? & ?) | (_ & ?)]; done.
      - intros Hj. right. split; [|done]. intros ->.
        apply HQi in Hj as (_ & ? & ?). congruence. }
    split.
    + intros lk'. rewrite Hnew'. intros [= <-]. cbn. split; [done|].
      intros j. by rewrite Hsame.
    + intros j _. rewrite Hnew'. by eexists.
    + intros lk'. rewrite Hnew'. by intros [= <-].
    + by intros j ?%Hnoh.
    + by intros j k ?%Hnoh.
Qed.

End DisciplineKept.

Section AnyCalls.
Context {client : MCPClient}.

Lemma lock_discipline_exec sched l l' :
  lock_discipline l -> exec sched l = Some l' -> lock_discipline l'.
Proof.
  revert l. induction sched as [|a sched IH]; intros l Hl; cbn.
  - by intros [= <-].
  - destruct (step a l) as [l1|] eqn:Hs; [|done].
    apply IH. destruct a as [i|now].
    + by eapply lock_discipline_run.
    + by eapply lock_discipline_clock.
Qed.

Lemma lock_discipline_progress l :
  lock_discipline l -> completed l = false ->
  exists i l', step (Run i) l = Some l'.
Proof.
  intros [Hnames Hprov] (i & t & Ht & Hrt)%not_completed_lookup.
  destruct (at_ t) as [|p|p|r] eqn:Hat.
  - exists i. by eapply run_created.
  - destruct (Hnames (arg_name t)) as [Hqueue Hqueued Hlocked Hholder _].
    assert (queued_for l i (arg_name t)) as Hq by by exists t, p.
    destruct (Hqueued i Hq) as [lk Hlk].
    destruct (Hqueue lk Hlk) as [_ Hmem].
    destruct (_locked lk) eqn:Hlkd.
    + destruct (Hlocked lk Hlk Hlkd) as (h & th & q & Hh & _ & Hath).
      exists h. by eapply run_awaiting_load.
    + apply Hmem in Hq. destruct lk as [lkd [|j rest]]; cbn in *;
        [by apply elem_of_nil in Hq|].
      assert (queued_for l j (arg_name t)) as (tj & q & Hj & Hn & Hatj)
        by (apply Hmem; left).
      exists j. eexists. eapply run_enabled; [done|].
      unfold get_tools_async. rewrite Hatj, Hn. unfold resume_acquire.
      rewrite Hlk. cbn. subst lkd. cbn. by rewrite Nat.eqb_refl.
  - exists i. by eapply run_awaiting_load.
  - unfold is_returned in Hrt. by rewrite Hat in Hrt.
Qed.

Lemma lock_discipline_completes l :
  lock_discipline l ->
  exists sched l', exec sched l = Some l' /\ completed l' = true.
Proof.
  remember (work l) as n eqn:Hn. revert l Hn.
  induction (lt_wf n) as [n _ IH]. intros l -> Hl.
  destruct (completed l) eqn:Hdone.
  - by exists [], l.
  - destruct (lock_discipline_progress l Hl Hdone) as (i & l1 & Hs).
    destruct (IH (work l1) (step_run_work _ _ _ Hs) l1 eq_refl)
      as (sched & l' & He & Hd).
    { by eapply lock_discipline_run. }
    exists (Run i :: sched), l'. by rewrite exec_cons, Hs.
Qed.

Lemma lock_discipline_completed l :
  lock_discipline l -> completed l = true -> locks_free l.
Proof.
  intros [Hnames _] Hdone n lk Hlk.
  destruct (Hnames n) as [Hqueue _ Hlocked _ _].
  assert (forall i m, ~ holds_lock l i m) as Hnoh.
  { intros i m (t & p & Ht & _ & Hat).
    pose proof (completed_lookup l i t Hdone Ht) as Hr.
    unfold is_returned in Hr. by rewrite Hat in Hr. }
  assert (forall i m, ~ queued_for l i m) as Hnoq.
  { intros i m (t & p & Ht & _ & Hat).
    pose proof (completed_lookup l i t Hdone Ht) as Hr.
    unfold is_returned in Hr. by rewrite Hat in Hr. }
  destruct (Hqueue lk Hlk) as [_ Hmem].
  destruct lk as [[|] ws]; cbn in *.
  - destruct (Hlocked _ Hlk eq_refl) as [i Hi]. by apply Hnoh in Hi.
  - destruct ws as [|j ws]; [done|].
    exfalso. apply (Hnoq j n), Hmem. by left.
Qed.

(** X15. Any calls of [get_tools_async] run in one event loop, for any
    names, with or without refresh, whatever the providers do, from a
    loop whose calls have not started and whose locks are free.  Whatever
    the schedule: one call at most is loading under a given name, and the
    lock of a name is locked exactly while some call loads under it;
    while a call has not returned some call can run, and the calls can
    always be run to the end; once all have returned every lock is free
    again with an empty queue, also when loads have raised. *)
Theorem loads_are_serialised_per_name sched l0 l :
  all_created l0 ->
  locks_free l0 ->
  exec sched l0 = Some l ->
  (forall n i j, holds_lock l i n -> holds_lock l j n -> i = j) /\
  (forall n lk, loop_locks l !! n = Some lk ->
     _locked lk = true <-> exists i, holds_lock l i n) /\
  (completed l = false -> exists i l', step (Run i) l = Some l') /\
  (exists sched' l', exec sched' l = Some l' /\ completed l' = true) /\
  (completed l = true -> locks_free l).
Proof.
  intros Hc Hf He.
  pose proof (lock_discipline_exec sched l0 l
                (lock_discipline_start l0 Hc Hf) He) as Hl.
  split.
  { intros n. by destruct (ld_names l Hl n). }
  split.
  { intros n lk Hlk. destruct (ld_names l Hl n) as [_ _ Hlocked Hholder _].
    split; [by apply Hlocked|].
    intros [i (lk' & Hlk' & Hlkd)%Hholder]. by simplify_eq. }
  split; [by apply lock_discipline_progress|].
  split; [by apply lock_discipline_completes|].
  by apply lock_discipline_completed.
Qed.

End AnyCalls.

Section Accounting.
Context {client : MCPClient}.

Lemma lock_move_pending i before after old new b :
  lock_move i before after old new b ->
  (if b then 1 else 0)
  + match after with Created | AcquiringLock _ => 1 | _ => 0 end
  <= match before with Created | AcquiringLock _ => 1 | _ => 0 end.
Proof. destruct 1; cbn; lia. Qed.

Lemma step_run_pending i l l' :
  step (Run i) l = Some l' ->
  length (loads (sys l')) + pending_loads l'
  <= length (loads (sys l)) + pending_loads l.
Proof.
  intros (t & f & b & Ht & Htasks & _ & _ & Hmove & Hloads & _)%step_run_moves.
  unfold pending_loads. rewrite Htasks, Hloads.
  pose proof (sum_list_with_insert may_still_load (tasks l) i t
    {| arg_name := arg_name t; arg_refresh := arg_refresh t; at_ := f |} Ht)
    as Hsum.
  apply lock_move_pending in Hmove.
  unfold may_still_load in *. cbn in Hsum.
  destruct b; cbn [length]; lia.
Qed.

Lemma exec_pending sched l l' :
  exec sched l = Some l' ->
  length (loads (sys l')) + pending_loads l'
  <= length (loads (sys l)) + pending_loads l.
Proof.
  revert l. induction sched as [|a sched IH]; intros l; cbn.
  - by intros [= <-].
  - destruct (step a l) as [l1|] eqn:Hs; [|done]. intros He.
    specialize (IH l1 He). destruct a as [i|now].
    + apply step_run_pending in Hs. lia.
    + cbn in Hs. simplify_eq. done.
Qed.

Lemma pending_all_created l :
  all_created l -> pending_loads l = length (tasks l).
Proof.
  unfold all_created, pending_loads. induction (tasks l) as [|t ts IH]; [done|].
  intros Hc. cbn. rewrite IH.
  - unfold may_still_load. by rewrite (Hc 0 t eq_refl).
  - intros i t' Hi. by apply (Hc (S i)).
Qed.

(** What a stretch of task [i] does to the manager: nothing, unless the
    stretch is the end of a load, which may write the entry of the task's
    name. *)
Lemma step_run_manager i l l' :
  step (Run i) l = Some l' ->
  exists t,
    tasks l !! i = Some t /\
    _providers (manager (sys l')) = _providers (manager (sys l)) /\
    (forall n, n <> arg_name t ->
       _cache (manager (sys l')) !! n = _cache (manager (sys l)) !! n) /\
    ((forall p, at_ t <> AwaitingLoad p) ->
     _cache (manager (sys l')) = _cache (manager (sys l))).
Proof.
  intros (t & [[f s'] locks'] & Ht & -> & Hr)%step_run.
  exists t. split; [done|]. cbn.
  destruct (at_ t) as [|q|q|r0] eqn:Hat; [| | |done].
  - unfold start in Hr.
    destruct (_providers (manager (sys l)) !! arg_name t) as [p|];
      [|by simplify_eq].
    destruct (cache_hit _ _ _); [by simplify_eq|].
    destruct (_lock_for _ _) as [lk locks1].
    destruct (negb (_locked lk) && no_waiter lk); [|by simplify_eq].
    unfold locked_section in Hr. destruct (cache_hit _ _ _); by simplify_eq.
  - unfold resume_acquire in Hr.
    destruct (loop_locks l !! arg_name t) as [lk|]; [|done].
    destruct (_waiters lk) as [|j rest]; [done|].
    destruct (negb (_locked lk) && (i =? j)%nat); [|done].
    unfold locked_section in Hr. destruct (cache_hit _ _ _); by simplify_eq.
  - unfold finish_load in Hr.
    destruct (load q (world (sys l))) as [[ts|e] w']; simplify_eq; cbn.
    + split; [done|]. split; [intros n Hn; by rewrite lookup_insert_ne|].
      intros Hno. by destruct (Hno q).
    + split; [done|]. split; [done|]. done.
Qed.

Lemma step_run_names i l l' :
  step (Run i) l = Some l' ->
  arg_name <$> tasks l' = arg_name <$> tasks l.
Proof.
  intros (t & [[f s'] locks'] & Ht & -> & _)%step_run. cbn.
  rewrite list_fmap_insert. cbn. apply list_insert_id.
  by rewrite list_lookup_fmap, Ht.
Qed.

Lemma exec_manager sched l l' :
  lock_discipline l ->
  exec sched l = Some l' ->
  _providers (manager (sys l')) = _providers (manager (sys l)) /\
  arg_name <$> tasks l' = arg_name <$> tasks l /\
  (forall n, n ∉ arg_name <$> tasks l ->
     _cache (manager (sys l')) !! n = _cache (manager (sys l)) !! n) /\
  (well_formed (manager (sys l)) -> well_formed (manager (sys l'))).
Proof.
  revert l. induction sched as [|a sched IH]; intros l Hl; cbn.
  - by intros [= <-].
  - destruct (step a l) as [l1|] eqn:Hs; [|done]. intros He.
    destruct a as [i|now].
    + pose proof (lock_discipline_run i l l1 Hl Hs) as Hl1.
      destruct (IH l1 Hl1 He) as (Hp & Hn & Hc & Hw).
      pose proof (step_run_names i l l1 Hs) as Hn1.
      destruct (step_run_manager i l l1 Hs) as (t & Ht & Hp1 & Hc1 & Hsame).
      split; [congruence|]. split; [congruence|]. split.
      * intros n Hnot. rewrite Hc by by rewrite Hn1.
        apply Hc1. intros ->. apply Hnot.
        apply list_elem_of_fmap. exists t. split; [done|].
        by eapply list_elem_of_lookup_2.
      * intros [Hk Hb]. apply Hw. split.
        -- intros n p. rewrite Hp1. apply Hk.
        -- intros n. rewrite Hp1.
           destruct (decide (n = arg_name t)) as [-> | Hne];
             [|rewrite Hc1 by done; apply Hb].
           destruct (at_ t) as [|q|q|r0] eqn:Hat;
             try (rewrite Hsame by (intros p; congruence); apply Hb).
           intros _. exists q. apply (ld_provider l Hl i t q Ht). by right.
    + cbn in Hs. simplify_eq.
      apply (IH _ (lock_discipline_clock now l _ Hl eq_refl) He).
Qed.

(** X16. In the same setting: every call makes at most one load, so the
    loads made are at most as many as the calls; the registry is never
    changed; the entries of names that no call asks for are not touched;
    and a well-formed manager stays well formed. *)
Theorem each_call_loads_at_most_once sched l0 l :
  all_created l0 ->
  locks_free l0 ->
  exec sched l0 = Some l ->
  length (loads (sys l)) + pending_loads l
    <= length (loads (sys l0)) + length (tasks l0) /\
  _providers (manager (sys l)) = _providers (manager (sys l0)) /\
  (forall n, (forall i t, tasks l0 !! i = Some t -> arg_name t <> n) ->
     _cache (manager (sys l)) !! n = _cache (manager (sys l0)) !! n) /\
  (well_formed (manager (sys l0)) -> well_formed (manager (sys l))).
Proof.
  intros Hc Hf He.
  pose proof (lock_discipline_start l0 Hc Hf) as Hl0.
  destruct (exec_manager sched l0 l Hl0 He) as (Hp & _ & Hca & Hw).
  split.
  { rewrite <- (pending_all_created l0 Hc). by apply (exec_pending sched). }
  split; [done|]. split; [|done].
  intros n Hn. apply Hca.
  intros (t & -> & (i & Hi)%list_elem_of_lookup_1)%list_elem_of_fmap.
  by eapply Hn.
Qed.

End Accounting.

Section SingleFlight.
Context {client : MCPClient}.
Variables (name : string) (p : ToolProvider) (s0 : Sys) (R : list float).
Hypothesis Hstale : stale_throughout name s0 R.
Hypothesis Hload : load_returns p s0 R.
Hypothesis Hfresh : fresh_throughout p s0 R.

Lemma at_time_eta w : at_time (time_time w) w = w.
Proof. by destruct w. Qed.

(** Before the load has completed every look at the cache is a miss. *)
Lemma cache_hit_stale l now :
  now ∈ start_readings s0 R ->
  world (sys l) = at_time now (world s0) ->
  _cache (manager (sys l)) !! name = _cache (manager s0) !! name ->
  cache_hit name false (sys l) = None.
Proof.
  intros Hnow Hw Hca. unfold cache_hit. rewrite Hca.
  destruct (_cache (manager s0) !! name) as [old|] eqn:Hold; [|done].
  by rewrite Hw, (Hstale old now Hold Hnow).
Qed.

(** Once it has completed every look at the cache is a hit. *)
Lemma cache_hit_fresh l now ts w' now' :
  now ∈ start_readings s0 R ->
  load p (at_time now (world s0)) = (Ok ts, w') ->
  now' ∈ time_time w' :: R ->
  world (sys l) = at_time now' w' ->
  _cache (manager (sys l)) !! name = Some (stored p ts w') ->
  cache_hit name false (sys l) = Some ts.
Proof.
  intros Hnow Hld Hnow' Hw Hca. unfold cache_hit. rewrite Hca, Hw.
  by rewrite (Hfresh now ts w' now' Hnow Hld Hnow').
Qed.

Lemma single_flight_init k locks :
  _providers (manager s0) !! name = Some p ->
  locks !! name = None \/ locks !! name = Some Lock_init ->
  single_flight name p s0 R (concurrent_calls name false k s0 locks).
Proof.
  intros Hp Hl. split; [done| |].
  - intros i t [-> _]%lookup_replicate. done.
  - apply (Idle _ _ _ _ _ (time_time (world s0))); try done.
    + by left.
    + cbn. by rewrite at_time_eta.
    + by intros i t [-> _]%lookup_replicate.
Qed.

Lemma single_flight_clock now l l' :
  now ∈ R ->
  single_flight name p s0 R l -> step (Clock now) l = Some l' ->
  single_flight name p s0 R l'.
Proof.
  intros Hnow [Hp Hc Hph]. cbn. intros [= <-].
  assert (now ∈ start_readings s0 R) as Hstart by by right.
  split; [done|done|].
  destruct Hph as [now0 Hn0 Hw Hca Hlo Hlk Hts
                  | now0 h ws th Hn0 Hw Hca Hlo Hq Hh Hth Hts
                  | now0 ts w' now' ws Hn0 Hld Hn' Hw Hca Hlo Hq Hts].
  - apply (Idle _ _ _ _ _ now); try done. cbn. by rewrite Hw.
  - apply (InFlight _ _ _ _ _ now h ws th); try done. cbn. by rewrite Hw.
  - apply (Loaded _ _ _ _ _ now0 ts w' now ws); try done.
    + by right.
    + cbn. by rewrite Hw.
Qed.

Lemma single_flight_run i l l' :
  single_flight name p s0 R l -> step (Run i) l = Some l' ->
  single_flight name p s0 R l'.
Proof.
  intros [Hp Hc Hph] (t & [[f s] locks] & Ht & -> & Hr)%step_run.
  destruct (Hc i t Ht) as [Hn Hrf]. rewrite Hn, Hrf in Hr.
  assert (forall j tj, tasks (install i t (f, s, locks) l) !! j = Some tj ->
            arg_name tj = name /\ arg_refresh tj = false) as Hc'.
  { intros j tj Hj.
    destruct (lookup_install _ _ _ _ _ _ _ _ Ht Hj) as [[-> ->] | [Hne Hj']];
      [done|by eapply Hc]. }
  destruct Hph as [now Hnow Hw Hca Hlo Hlk Hts
                  | now h ws th Hnow Hw Hca Hlo Hq Hh Hth Hts
                  | now ts w' now' ws Hnow Hld Hnow' Hw Hca Hlo Hq Hts].
  - (* nobody has started *)
    rewrite (Hts i t Ht) in Hr. unfold start in Hr.
    rewrite Hp, (cache_hit_stale l now Hnow Hw Hca) in Hr.
    assert (_lock_for name (loop_locks l) =
            (Lock_init, <[name:=Lock_init]> (loop_locks l))) as Hlf.
    { unfold _lock_for. destruct Hlk as [-> | Hlk]; [done|].
      rewrite Hlk. f_equal. symmetry. by apply insert_id. }
    rewrite Hlf in Hr. cbn in Hr. unfold locked_section in Hr.
    rewrite (cache_hit_stale l now Hnow Hw Hca) in Hr. simplify_eq.
    split; [done|done|].
    eapply (InFlight _ _ _ _ _ now i []).
    + done.
    + done.
    + done.
    + cbn. by rewrite Hlo.
    + split; [cbn; by rewrite lookup_insert_eq|]. split; [constructor|].
      intros j. rewrite (waiting_install p i t _ _ _ l j Ht).
      split; [by intros ?%elem_of_nil|].
      intros [[_ ?] | [_ (tj & Hj & Hf)]]; [done|].
      by rewrite (Hts j tj Hj) in Hf.
    + by apply lookup_install_eq.
    + done.
    + intros j tj Hj Hne. left. rewrite lookup_install_ne in Hj by done.
      by eapply Hts.
  - (* a load is in flight *)
    destruct Hq as (Hlk & Hnd & Hws).
    destruct (decide (i = h)) as [-> | Hih].
    + (* the holder finishes its load *)
      rewrite Hh in Ht. simplify_eq. rewrite Hth in Hr.
      unfold finish_load in Hr.
      destruct (Hload now Hnow) as (ts & w' & Hld).
      rewrite Hw, Hld in Hr. unfold release in Hr. rewrite Hlk in Hr.
      simplify_eq.
      split; [done|done|].
      eapply (Loaded _ _ _ _ _ now ts w' (time_time w') ws).
      * done.
      * done.
      * by left.
      * cbn. by rewrite at_time_eta.
      * cbn. by rewrite lookup_insert_eq.
      * done.
      * split; [cbn; by rewrite lookup_insert_eq|]. split; [done|].
        intros j. rewrite (waiting_install p h t _ _ _ l j Hh), Hws.
        split; [|by intros [[_ ?] | [_ ?]]].
        intros Hwj. right. split; [|done].
        intros ->. destruct Hwj as (tj & Hj & Hf). congruence.
      * intros j tj Hj.
        destruct (lookup_install _ _ _ _ _ _ _ _ Hh Hj) as [[-> ->] | [Hne Hj']].
        -- by right; right.
        -- destruct (Hts j tj Hj' Hne) as [? | ?]; [by left|right; by left].
    + (* another task runs *)
      destruct (Hts i t Ht Hih) as [Hf | Hf]; rewrite Hf in Hr.
      * unfold start in Hr.
        rewrite Hp, (cache_hit_stale l now Hnow Hw Hca) in Hr.
        unfold _lock_for in Hr. rewrite Hlk in Hr. cbn in Hr.
        simplify_eq.
        split; [done|done|].
        assert (i ∉ ws) as Hiws.
        { rewrite Hws. intros (ti & Hi & Hfi). congruence. }
        eapply (InFlight _ _ _ _ _ now h (ws ++ [i]) th).
        -- done.
        -- done.
        -- done.
        -- done.
        -- split; [cbn; by rewrite lookup_insert_eq|]. split.
           ++ apply NoDup_app. split; [done|]. split; [|apply NoDup_singleton].
              intros x Hx ->%list_elem_of_singleton. done.
           ++ intros j. rewrite (waiting_install p i t _ _ _ l j Ht).
              rewrite elem_of_app, list_elem_of_singleton, Hws.
              split.
              ** intros [Hwj | ->]; [|by left].
                 right. split; [|done]. intros ->.
                 destruct Hwj as (ti & Hi & Hfi). congruence.
              ** intros [[-> _] | [_ Hwj]]; [by right|by left].
        -- by rewrite lookup_install_ne.
        -- done.
        -- intros j tj Hj Hne.
           destruct (lookup_install _ _ _ _ _ _ _ _ Ht Hj)
             as [[-> ->] | [Hne' Hj']].
           ++ by right.
           ++ by eapply Hts.
      * unfold resume_acquire in Hr. rewrite Hlk in Hr. cbn in Hr.
        by destruct ws.
  - (* the load is done *)
    destruct Hq as (Hlk & Hnd & Hws).
    pose proof (cache_hit_fresh l now ts w' now' Hnow Hld Hnow' Hw Hca) as Hhit.
    destruct (Hts i t Ht) as [Hf | [Hf | Hf]]; rewrite Hf in Hr.
    + unfold start in Hr. rewrite Hp, Hhit in Hr.
      simplify_eq.
      split; [done|done|].
      eapply (Loaded _ _ _ _ _ now ts w' now' ws); try done.
      * split; [done|]. split; [done|].
        intros j. rewrite (waiting_install p i t _ _ _ l j Ht), Hws.
        split; [|by intros [[_ ?] | [_ ?]]].
        intros Hwj. right. split; [|done].
        intros ->. destruct Hwj as (ti & Hi & Hfi). congruence.
      * intros j tj Hj.
        destruct (lookup_install _ _ _ _ _ _ _ _ Ht Hj)
          as [[-> ->] | [Hne' Hj']].
        -- by right; right.
        -- by eapply Hts.
    + unfold resume_acquire in Hr. rewrite Hlk in Hr. cbn in Hr.
      destruct ws as [|j rest]; [done|].
      destruct (Nat.eqb_spec i j) as [<- | Hij]; [|done].
      unfold locked_section in Hr. rewrite Hhit in Hr.
      unfold release in Hr. rewrite lookup_insert_eq in Hr.
      simplify_eq.
      apply NoDup_cons in Hnd as [Hirest Hnd].
      split; [done|done|].
      eapply (Loaded _ _ _ _ _ now ts w' now' rest); try done.
      * split; [cbn; by rewrite lookup_insert_eq|]. split; [done|].
        intros j. rewrite (waiting_install p i t _ _ _ l j Ht), <- Hws.
        rewrite elem_of_cons. split.
        -- intros Hj. right. split; [by intros ->|by right].
        -- intros [[_ ?] | [Hne [-> | ?]]]; done.
      * intros j tj Hj.
        destruct (lookup_install _ _ _ _ _ _ _ _ Ht Hj)
          as [[-> ->] | [Hne' Hj']].
        -- by right; right.
        -- by eapply Hts.
    + done.
Qed.

Lemma single_flight_exec sched l l' :
  (forall now, now ∈ readings sched -> now ∈ R) ->
  single_flight name p s0 R l ->
  exec sched l = Some l' ->
  single_flight name p s0 R l'.
Proof.
  revert l. induction sched as [|a sched IH]; intros l HR Hl; cbn.
  - by intros [= <-].
  - destruct (step a l) as [l1|] eqn:Hs; [|done]. intros He.
    destruct a as [i|now]; cbn in HR.
    + eapply (IH l1); [done|by eapply single_flight_run|done].
    + eapply (IH l1); [|eapply single_flight_clock; [|done|done]|done].
      * intros now' Hn. apply HR. by right.
      * apply HR. by left.
Qed.

(** At most one load has been made so far. *)
Lemma single_flight_loads l :
  single_flight name p s0 R l ->
  loads (sys l) = loads s0 \/ loads (sys l) = name :: loads s0.
Proof. intros [_ _ [| |]]; auto. Qed.

(** The calls that have returned so far all returned the same list. *)
Lemma single_flight_results l :
  single_flight name p s0 R l ->
  exists ts, forall i r, result_of i l = Some r -> r = Ok ts.
Proof.
  intros [_ _ Hph]. unfold result_of.
  destruct Hph as [now Hnow Hw Hca Hlo Hlk Hts
                  | now h ws th Hnow Hw Hca Hlo Hq Hh Hth Hts
                  | now ts w' now' ws Hnow Hld Hnow' Hw Hca Hlo Hq Hts].
  - exists []. intros i r. destruct (tasks l !! i) as [t|] eqn:Ht; [|done].
    destruct t as [n rf f]. specialize (Hts i _ Ht). cbn in Hts. by subst f.
  - exists []. intros i r. destruct (tasks l !! i) as [t|] eqn:Ht; [|done].
    destruct t as [n rf f]. destruct (decide (i = h)) as [-> | Hne].
    + rewrite Hh in Ht. simplify_eq. cbn in Hth. by subst f.
    + destruct (Hts i _ Ht Hne) as [Hf | Hf]; cbn in Hf; by subst f.
  - exists ts. intros i r. destruct (tasks l !! i) as [t|] eqn:Ht; [|done].
    destruct t as [n rf f].
    destruct (Hts i _ Ht) as [Hf | [Hf | Hf]]; cbn in Hf; subst f; try done.
    by intros [= <-].
Qed.

(** Once every call has returned: the load ran exactly once, and every call
    returned the list it gave, which is the one cached. *)
Lemma single_flight_completed l :
  single_flight name p s0 R l ->
  completed l = true ->
  0 < length (tasks l) ->
  loads (sys l) = name :: loads s0 /\
  exists now ts w',
    now ∈ start_readings s0 R /\
    load p (at_time now (world s0)) = (Ok ts, w') /\
    _cache (manager (sys l)) !! name = Some (stored p ts w') /\
    forall i, i < length (tasks l) -> result_of i l = Some (Ok ts).
Proof.
  intros [_ _ Hph] Hdone Hk.
  destruct (lookup_lt_is_Some_2 (tasks l) 0 Hk) as [t0 Ht0].
  destruct Hph as [now Hnow Hw Hca Hlo Hlk Hts
                  | now h ws th Hnow Hw Hca Hlo Hq Hh Hth Hts
                  | now ts w' now' ws Hnow Hld Hnow' Hw Hca Hlo Hq Hts].
  - pose proof (completed_lookup l 0 t0 Hdone Ht0) as Hr.
    unfold is_returned in Hr. by rewrite (Hts 0 t0 Ht0) in Hr.
  - pose proof (completed_lookup l h th Hdone Hh) as Hr.
    unfold is_returned in Hr. by rewrite Hth in Hr.
  - split; [done|]. exists now, ts, w'. split; [done|]. split; [done|].
    split; [done|].
    intros i Hi. destruct (lookup_lt_is_Some_2 (tasks l) i Hi) as [t Ht].
    pose proof (completed_lookup l i t Hdone Ht) as Hr.
    unfold is_returned in Hr. unfold result_of. rewrite Ht.
    destruct t as [n rf f]. cbn in *.
    destruct (Hts i _ Ht) as [Hf | [Hf | Hf]]; cbn in Hf; subst f; done.
Qed.

(** No deadlock: while a call has not returned, some call can run. *)
Lemma single_flight_progress l :
  single_flight name p s0 R l ->
  completed l = false ->
  exists i l', step (Run i) l = Some l'.
Proof.
  intros [_ Hc Hph] (i & t & Ht & Hrt)%not_completed_lookup.
  destruct Hph as [now Hnow Hw Hca Hlo Hlk Hts
                  | now h ws th Hnow Hw Hca Hlo Hq Hh Hth Hts
                  | now ts w' now' ws Hnow Hld Hnow' Hw Hca Hlo Hq Hts].
  - exists i. eapply run_created; eauto.
  - exists h. eapply run_awaiting_load; eauto.
  - destruct Hq as (Hlk & Hnd & Hws).
    destruct (Hts i t Ht) as [Hf | [Hf | Hf]].
    + exists i. eapply run_created; eauto.
    + assert (i ∈ ws) as Hi by (apply Hws; by exists t).
      destruct ws as [|j rest]; [by apply elem_of_nil in Hi|].
      assert (waiting p l j) as (tj & Hj & Hfj) by (apply Hws; left).
      exists j. eexists. eapply run_enabled; [done|].
      unfold get_tools_async. rewrite Hfj. unfold resume_acquire.
      destruct (Hc j tj Hj) as [-> _]. rewrite Hlk. cbn.
      by rewrite Nat.eqb_refl.
    + unfold is_returned in Hrt. by rewrite Hf in Hrt.
Qed.

(** Hence the calls can always be run to the end. *)
Lemma single_flight_completes l :
  single_flight name p s0 R l ->
  exists sched l', exec sched l = Some l' /\ completed l' = true.
Proof.
  remember (work l) as n eqn:Hn. revert l Hn.
  induction (lt_wf n) as [n _ IH]. intros l -> Hl.
  destruct (completed l) eqn:Hdone.
  - by exists [], l.
  - destruct (single_flight_progress l Hl Hdone) as (i & l1 & Hs).
    destruct (IH (work l1) (step_run_work _ _ _ Hs) l1 eq_refl)
      as (sched & l' & He & Hd).
    { by eapply single_flight_run. }
    exists (Run i :: sched), l'. by rewrite exec_cons, Hs.
Qed.

End SingleFlight.

Section EachLoads.
Context {client : MCPClient}.
Variables (name : string) (p : ToolProvider) (s0 : Sys) (k : nat).

(** A stretch of a call with [refresh=True] for a registered name: the
    call never returns from the cache; it returns only when its own load
    does, with what the load gave. *)
Lemma step_run_refresh i l l' :
  each_loads name p s0 k l ->
  step (Run i) l = Some l' ->
  exists t f,
    tasks l !! i = Some t /\
    tasks l' = <[i := {| arg_name := arg_name t;
                         arg_refresh := arg_refresh t;
                         at_ := f |}]> (tasks l) /\
    _providers (manager (sys l')) = _providers (manager (sys l)) /\
    ((at_ t = Created /\ f = AwaitingLoad p /\
        loads (sys l') = name :: loads (sys l)) \/
     (at_ t = Created /\ f = AcquiringLock p /\
        loads (sys l') = loads (sys l)) \/
     (at_ t = AcquiringLock p /\ f = AwaitingLoad p /\
        loads (sys l') = name :: loads (sys l)) \/
     (at_ t = AwaitingLoad p /\ f = Returned (load p (world (sys l))).1 /\
        loads (sys l') = loads (sys l))).
Proof.
  intros [Hp Hc Hfr _ _] (t & [[f s'] locks'] & Ht & -> & Hr)%step_run.
  destruct (Hc i t Ht) as [Hn Hrf]. rewrite Hn, Hrf in Hr.
  exists t, f. split; [done|]. split; [done|]. cbn.
  destruct (at_ t) as [|q|q|r0] eqn:Hat; [| | |done].
  - unfold start in Hr. rewrite Hp, cache_hit_refresh in Hr.
    destruct (_lock_for name (loop_locks l)) as [lk locks1].
    destruct (negb (_locked lk) && no_waiter lk).
    + rewrite (locked_section_miss _ _ _ _ _ (cache_hit_refresh name _)) in Hr.
      simplify_eq. split; [done|]. by left.
    + simplify_eq. split; [done|]. right; by left.
  - assert (q = p) as -> by (eapply (Hfr i t); [done|by left]).
    unfold resume_acquire in Hr.
    destruct (loop_locks l !! name) as [lk|]; [|done].
    destruct (_waiters lk) as [|j rest]; [done|].
    destruct (negb (_locked lk) && (i =? j)%nat); [|done].
    rewrite (locked_section_miss _ _ _ _ _ (cache_hit_refresh name _)) in Hr.
    simplify_eq. split; [done|]. right; right; by left.
  - assert (q = p) as -> by (eapply (Hfr i t); [done|by right]).
    unfold finish_load in Hr.
    destruct (load p (world (sys l))) as [[ts|e] w'] eqn:Hld; simplify_eq.
    + split; [done|]. right; right; right. done.
    + split; [done|]. right; right; right. cbn.
      by rewrite (load_raises _ _ _ _ Hld).
Qed.

Lemma each_loads_init locks :
  _providers (manager s0) !! name = Some p ->
  each_loads name p s0 k (concurrent_calls name true k s0 locks).
Proof.
  intros Hp. split; [done| | | |].
  - by intros i t [-> _]%lookup_replicate.
  - intros i t q [-> _]%lookup_replicate. by intros [? | ?].
  - intros i r. unfold result_of. cbn.
    destruct (replicate k (call name true) !! i) as [t|] eqn:Ht; [|done].
    apply lookup_replicate in Ht as [-> _]. done.
  - exists 0. split; [done|]. rewrite pending_all_created.
    + cbn. apply length_replicate.
    + by intros i t [-> _]%lookup_replicate.
Qed.

Lemma each_loads_clock now l l' :
  each_loads name p s0 k l -> step (Clock now) l = Some l' ->
  each_loads name p s0 k l'.
Proof. intros [H1 H2 H3 H4 H5]. cbn. intros [= <-]. by split. Qed.

Lemma each_loads_run i l l' :
  each_loads name p s0 k l -> step (Run i) l = Some l' ->
  each_loads name p s0 k l'.
Proof.
  intros Hl Hs.
  destruct (step_run_refresh i l l' Hl Hs) as (t & f & Ht & Htasks & Hpr & Hmove).
  destruct Hl as [Hp Hc Hfr Hres (n & Hlo & Hcount)].
  destruct (Hc i t Ht) as [Hn Hrf].
  pose proof (sum_list_with_insert may_still_load (tasks l) i t
    {| arg_name := arg_name t; arg_refresh := arg_refresh t; at_ := f |} Ht)
    as Hsum.
  fold (pending_loads l) in Hsum. rewrite <- Htasks in Hsum.
  fold (pending_loads l') in Hsum. unfold may_still_load in Hsum.
  cbn in Hsum.
  split.
  - by rewrite Hpr.
  - intros j tj. rewrite Htasks.
    intros [(-> & ->) | (Hne & Hj)]%(updated_task _ _ _ _ _ _ Ht);
      [done|by eapply Hc].
  - intros j tj q. rewrite Htasks.
    intros [(-> & ->) | (Hne & Hj)]%(updated_task _ _ _ _ _ _ Ht);
      [|by eapply Hfr].
    cbn. destruct Hmove as [(_ & -> & _) | [(_ & -> & _) | [(_ & -> & _)
                           | (_ & -> & _)]]]; intros [? | ?]; congruence.
  - intros j r. unfold result_of. rewrite Htasks.
    destruct (decide (j = i)) as [-> | Hne].
    + rewrite list_lookup_insert_eq by by eapply lookup_lt_Some. cbn.
      destruct Hmove as [(_ & -> & _) | [(_ & -> & _) | [(_ & -> & _)
                        | (_ & -> & _)]]]; try done.
      intros [= <-]. by eexists.
    + rewrite list_lookup_insert_ne by done. apply Hres.
  - destruct Hmove as [(Hat & -> & Hlo') | [(Hat & -> & Hlo')
                      | [(Hat & -> & Hlo') | (Hat & -> & Hlo')]]];
      rewrite Hat in Hsum; rewrite Hlo', Hlo.
    + exists (S n). split; [done|]. lia.
    + exists n. split; [done|]. lia.
    + exists (S n). split; [done|]. lia.
    + exists n. split; [done|]. lia.
Qed.

Lemma each_loads_exec sched l l' :
  each_loads name p s0 k l -> exec sched l = Some l' ->
  each_loads name p s0 k l'.
Proof.
  revert l. induction sched as [|a sched IH]; intros l Hl; cbn.
  - by intros [= <-].
  - destruct (step a l) as [l1|] eqn:Hs; [|done].
    apply IH. destruct a as [i|now].
    + by eapply each_loads_run.
    + by eapply each_loads_clock.
Qed.

Lemma pending_completed l : completed l = true -> pending_loads l = 0.
Proof.
  unfold completed, pending_loads.
  induction (tasks l) as [|t ts IH]; [done|]. cbn.
  intros [Ht Hts]%andb_prop. rewrite (IH Hts).
  unfold is_returned in Ht. unfold may_still_load. by destruct (at_ t).
Qed.

End EachLoads.

(** ** Concurrent calls for the same name *)

Section Concurrent.
Context {client : MCPClient}.

(** A provider without TTL, or with a TTL of zero, stores entries that
    never expire. *)
Lemma no_ttl_fresh_throughout p s0 R :
  ttl_truthy (cache_ttl p) = false -> fresh_throughout p s0 R.
Proof.
  intros Httl now ts w' now' _ _ _. unfold valid, stored. cbn.
  by rewrite (expiry_falsy _ _ Httl).
Qed.

(** C1 (as amended). [k] calls [get_tools_async(name)] run in one event
    loop whose locks are free, for a registered name, under any schedule.

    Without refresh, when the name is uncached (no entry, or an entry that
    has expired at every clock reading of the run), the load returns a
    list, and the entry it stores does not expire during the run (no TTL,
    a TTL of zero, or an expiry that no clock reading of the run reaches):
    at every moment at most one load has been made and the calls that have
    returned all returned the same list; once all have returned, the load
    was made exactly once, and every call returned the list that this load
    gave, which is the one now cached.

    With [refresh=True], whatever the provider does: at most one call is
    loading at a time, every call that has returned returned what a load
    of the provider gave, and once all have returned exactly [k] loads
    were made, one per call.

    In both cases, while a call has not returned some call can run, the
    calls run at most [3 * k] times, and they can always be run to the
    end. *)
Theorem concurrent_calls_for_one_name name p s0 locks k sched l :
  _providers (manager s0) !! name = Some p ->
  (forall n lk, locks !! n = Some lk -> lk = Lock_init) ->
  2 <= k ->
  (stale_throughout name s0 (readings sched) ->
   load_returns p s0 (readings sched) ->
   ttl_truthy (cache_ttl p) = false \/
     fresh_throughout p s0 (readings sched) ->
   exec sched (concurrent_calls name false k s0 locks) = Some l ->
   (loads (sys l) = loads s0 \/ loads (sys l) = name :: loads s0) /\
   (exists ts, forall i r, result_of i l = Some r -> r = Ok ts) /\
   (completed l = true ->
      loads (sys l) = name :: loads s0 /\
      exists now ts w',
        now ∈ start_readings s0 (readings sched) /\
        load p (at_time now (world s0)) = (Ok ts, w') /\
        _cache (manager (sys l)) !! name = Some (stored p ts w') /\
        forall i, i < k -> result_of i l = Some (Ok ts)) /\
   (completed l = false -> exists i l', step (Run i) l = Some l') /\
   runs sched <= 3 * k /\
   (exists sched' l', exec sched' l = Some l' /\ completed l' = true)) /\
  (exec sched (concurrent_calls name true k s0 locks) = Some l ->
   (forall i j, holds_lock l i name -> holds_lock l j name -> i = j) /\
   (exists n, n <= k /\ loads (sys l) = (replicate n name ++ loads s0)%list) /\
   (forall i r, result_of i l = Some r -> exists w, r = (load p w).1) /\
   (completed l = true ->
      loads (sys l) = (replicate k name ++ loads s0)%list) /\
   (completed l = false -> exists i l', step (Run i) l = Some l') /\
   runs sched <= 3 * k /\
   (exists sched' l', exec sched' l = Some l' /\ completed l' = true)).
Proof.
  intros Hp Hfree Hk.
  assert (forall refresh l',
            exec sched (concurrent_calls name refresh k s0 locks) = Some l' ->
            runs sched <= 3 * k) as Hruns.
  { intros refresh l' He. pose proof (exec_runs_bounded _ _ _ He) as Hw.
    rewrite work_concurrent_calls in Hw. lia. }
  split.
  - intros Hstale Hload Httl He.
    assert (fresh_throughout p s0 (readings sched)) as Hfresh.
    { destruct Httl as [Httl | ?]; [by apply no_ttl_fresh_throughout|done]. }
    assert (locks !! name = None \/ locks !! name = Some Lock_init) as Hlk.
    { destruct (locks !! name) as [lk|] eqn:Hl; [|by left].
      right. by rewrite (Hfree name lk Hl). }
    pose proof (single_flight_init name p s0 (readings sched) k locks Hp Hlk)
      as H0.
    assert (single_flight name p s0 (readings sched) l) as Hl.
    { eapply (single_flight_exec name p s0 (readings sched) Hstale Hload
                Hfresh sched); [done|exact H0|exact He]. }
    assert (length (tasks l) = k) as Hlen.
    { rewrite (exec_length _ _ _ He). cbn. apply length_replicate. }
    split; [by eapply single_flight_loads|].
    split; [by eapply single_flight_results|].
    split.
    { intros Hdone.
      destruct (single_flight_completed name p s0 (readings sched) l Hl Hdone)
        as (Hlo & now & ts & w' & Hnow & Hld & Hca & Hr); [lia|].
      split; [done|]. exists now, ts, w'. by rewrite <- Hlen. }
    split; [by eapply single_flight_progress|].
    split; [by eapply Hruns|].
    by eapply single_flight_completes.
  - intros He.
    pose proof (each_loads_exec name p s0 k sched _ l
                  (each_loads_init name p s0 k locks Hp) He)
      as [_ _ _ Hres (n & Hlo & Hcount)].
    assert (lock_discipline l) as Hdisc.
    { eapply lock_discipline_exec; [|exact He].
      apply lock_discipline_start.
      - by intros i t [-> _]%lookup_replicate.
      - exact Hfree. }
    split; [apply (nd_mutex l name (ld_names l Hdisc name))|].
    split; [exists n; split; [lia|done]|].
    split; [done|].
    split.
    { intros Hdone. rewrite (pending_completed l Hdone) in Hcount.
      by replace k with n by lia. }
    split; [by apply lock_discipline_progress|].
    split; [by eapply Hruns|].
    by apply lock_discipline_completes.
Qed.

End Concurrent.

(* ===================================================================== *)
(** * Concrete runs                                                       *)
(* ===================================================================== *)

(** C1 as first stated fails for force-refreshed calls.  Two calls with
    [refresh=True] for the same name, in one loop: the first takes the lock
    and loads, the second waits for the lock; when it gets the lock the
    second look at the cache is skipped, as [refresh] is set, and it loads
    again.  Both have returned and two loads were made. *)
Lemma refreshing_calls_load_twice :
  exists l,
    exec (client := demo.online) [Run 0; Run 1; Run 0; Run 1; Run 1]
      (concurrent_calls "local" true 2
         (demo.sys_with (demo.local_tools None) demo.w0) ∅) = Some l /\
    completed l = true /\
    loads (sys l) = ["local"; "local"].
Proof. eexists. split; [vm_compute; reflexivity|]. split; reflexivity. Qed.

(** Two calls without refresh for a provider that raises: nothing is cached
    by the first load, so the second call loads as well. *)
Remark failing_calls_load_twice :
  exists l,
    exec (client := demo.online) [Run 0; Run 1; Run 0; Run 1; Run 1]
      (concurrent_calls "broken" false 2 (demo.sys_with demo.broken demo.w0) ∅)
      = Some l /\
    completed l = true /\
    loads (sys l) = ["broken"; "broken"].
Proof. eexists. split; [vm_compute; reflexivity|]. split; reflexivity. Qed.

(** Two calls without refresh and a TTL of one second: if the second call
    gets the lock more than a second after the load, it finds the entry
    expired and loads again.  The load completes when the clock reads 100
    and the second call wakes up when it reads 105. *)
Remark expired_before_wakeup_loads_twice :
  exists l,
    exec (client := demo.online)
      [Run 0; Run 1; Run 0; Clock (demo.seconds 105); Run 1; Run 1]
      (concurrent_calls "local" false 2
         (demo.sys_with (demo.local_tools (Some (demo.seconds 1))) demo.w0) ∅)
      = Some l /\
    completed l = true /\
    loads (sys l) = ["local"; "local"].
Proof. eexists. split; [vm_compute; reflexivity|]. split; reflexivity. Qed.

(** C3 as first stated fails at the rounding of the expiry.  The TTL is
    [0.1], the float [3602879701896397 * 2 ^ -55]; the load completes when
    the clock reads [1793700000.0]; the sum of the two is rounded down to
    the float [7523323085219430 * 2 ^ -22].  A call made when the clock
    reads that float comes fewer than [0.1] seconds after the load
    completed, in exact arithmetic, and yet it loads the provider again. *)
Lemma ttl_expires_before_t_seconds :
  exists s1 s2 r a b c,
    valid_binary 53 1024 (float_of 3602879701896397 (-55)) = true /\
    valid_binary 53 1024 (demo.seconds 1793700000) = true /\
    valid_binary 53 1024 (float_of 7523323085219430 (-22)) = true /\
    float_add (demo.seconds 1793700000) (float_of 3602879701896397 (-55))
      = float_of 7523323085219430 (-22) /\
    get_tools (client := demo.online) "local" false false
      (demo.sys_with (demo.local_tools (Some (float_of 3602879701896397 (-55))))
         (at_time (demo.seconds 1793700000) demo.w0))
      = Some (Ok ["now"; "sleep"], s1) /\
    time_time (world s1) = demo.seconds 1793700000 /\
    float_value (time_time (world s1)) = Some a /\
    float_value (float_of 7523323085219430 (-22)) = Some b /\
    float_value (float_of 3602879701896397 (-55)) = Some c /\
    (0 < c)%Q /\
    (a < b)%Q /\
    (b - a < c)%Q /\
    get_tools (client := demo.online) "local" false false
      (at_world (at_time (float_of 7523323085219430 (-22)) (world s1)) s1)
      = Some (r, s2) /\
    loads s2 = ["local"; "local"].
Proof.
  eexists _, _, _, _, _, _.
  split; [vm_compute; reflexivity|].
  split; [vm_compute; reflexivity|].
  split; [vm_compute; reflexivity|].
  split; [vm_compute; reflexivity|].
  split; [vm_compute; reflexivity|].
  split; [vm_compute; reflexivity|].
  split; [vm_compute; reflexivity|].
  split; [vm_compute; reflexivity|].
  split; [vm_compute; reflexivity|].
  split; [vm_compute; reflexivity|].
  split; [vm_compute; reflexivity|].
  split; [vm_compute; reflexivity|].
  split; [vm_compute; reflexivity|].
  vm_compute; reflexivity.
Qed.

(** C8 as first stated fails for a builder that lets a [StopIteration]
    escape: the caller gets a [RuntimeError], not that exception. *)
Lemma builder_stop_iteration_is_replaced :
  exists s',
    impl demo.exhausted = CallableImpl (fun w => (Raise (StopIteration ""), w)) /\
    get_tools (client := demo.online) "exhausted" false false
      (demo.sys_with demo.exhausted demo.w0)
      = Some (Raise (RuntimeError "coroutine raised StopIteration"
                       (Some (StopIteration ""))), s') /\
    RuntimeError "coroutine raised StopIteration" (Some (StopIteration ""))
      <> StopIteration "".
Proof.
  eexists. split; [reflexivity|]. split; [vm_compute; reflexivity|]. done.
Qed.

(** C4 as first stated fails for [clear_cache]: with a name that was never
    registered it returns normally. *)
Lemma clear_cache_accepts_unknown_name :
  _providers ToolManager_init !! "ghost" = None /\
  ~ raises_ToolManagerError (clear_cache (Some "ghost") ToolManager_init).1.
Proof.
  split; [reflexivity|]. intros (msg & cause & Hr). cbn in Hr. discriminate.
Qed.

(* ===================================================================== *)
(** * Further properties of the code                                      *)
(* ===================================================================== *)

(** ** More on the blocking entry point *)

Section EntryPoint.
Context {client : MCPClient}.

(** The four ways a call of [get_tools] can go. *)
Lemma get_tools_cases name refresh running_loop s r s' :
  get_tools name refresh running_loop s = Some (r, s') ->
  (s' = s /\ exists e, r = Raise e /\
     (running_loop = true \/ _providers (manager s) !! name = None)) \/
  (s' = s /\ running_loop = false /\
     exists p ts, _providers (manager s) !! name = Some p /\
                  cache_hit name refresh s = Some ts /\ r = Ok ts) \/
  (running_loop = false /\
     exists p, _providers (manager s) !! name = Some p /\
               cache_hit name refresh s = None /\
               (r, s') = after_load name p s).
Proof.
  unfold get_tools. destruct running_loop.
  { intros [= <- <-]. left. split; [done|]. eexists. split; [done|by left]. }
  destruct (_providers (manager s) !! name) as [p|] eqn:Hp.
  - destruct (cache_hit name refresh s) as [ts|] eqn:Hc.
    + rewrite (asyncio_run_hit name refresh s p ts Hp Hc). intros [= <- <-].
      right; left. split; [done|]. split; [done|]. by exists p, ts.
    + rewrite (asyncio_run_miss name refresh s p Hp Hc). intros [= Ha].
      right; right. split; [done|]. exists p. by rewrite Ha.
  - rewrite (asyncio_run_unknown name refresh s Hp). intros [= <- <-].
    left. split; [done|]. eexists. split; [done|by right].
Qed.

Lemma cache_after_load_ne name p s n :
  n <> name ->
  _cache (manager (after_load name p s).2) !! n = _cache (manager s) !! n.
Proof.
  intros Hn. unfold after_load.
  destruct (load p (world s)) as [[ts|e] w']; cbn; [|done].
  by rewrite lookup_insert_ne.
Qed.


(** X2. A call of [get_tools] never changes the registry, changes the cache
    at most under its own name, makes at most one load, and changes
    nothing of the manager when it makes none. *)
Theorem get_tools_touches_only_its_name name refresh running_loop s r s' :
  get_tools name refresh running_loop s = Some (r, s') ->
  _providers (manager s') = _providers (manager s) /\
  (forall n, n <> name ->
     _cache (manager s') !! n = _cache (manager s) !! n) /\
  (loads s' = loads s \/ loads s' = name :: loads s) /\
  (loads s' = loads s -> manager s' = manager s).
Proof.
  intros [(-> & _) | [(-> & _) | (_ & p & Hp & Hc & Ha)]]%get_tools_cases.
  - repeat split; auto.
  - repeat split; auto.
  - assert (s' = (after_load name p s).2) as -> by by rewrite <- Ha.
    split; [apply providers_after_load|].
    split; [intros n Hn; by apply cache_after_load_ne|].
    rewrite loads_after_load. split; [by right|].
    intros Hl. exfalso. clear -Hl.
    assert (length (name :: loads s) = length (loads s)) as Hlen
      by by rewrite Hl.
    cbn in Hlen. lia.
Qed.


Lemma describe_spec name m w :
  describe name m w =
    match _providers m !! name with
    | None => Raise (unknown_provider name)
    | Some p =>
        Ok (metadata p,
            match _cache m !! name with
            | Some entry => valid entry w
            | None => false
            end)
    end.
Proof. reflexivity. Qed.

(** X3. The flag ["cached"] of [describe] tells what a call without
    refresh does when it is made at the same clock reading: with the flag
    set the call returns the cached tools and changes nothing; with the
    flag not set it makes a load.  The flag read at another clock reading
    [w1] tells the same as long as the name has no entry or an entry
    without expiry; an entry with an expiry may expire, or, on a clock put
    back, be valid again, between the two readings.  In a registry where
    every provider sits under its own name, the metadata carry the name
    asked for. *)
Theorem describe_cached_at_call_time name s w1 md c :
  describe name (manager s) w1 = Ok (md, c) ->
  (well_keyed (manager s) -> md_name md = name) /\
  exists c2 r s',
    describe name (manager s) (world s) = Ok (md, c2) /\
    get_tools name false false s = Some (r, s') /\
    (c2 = true ->
       s' = s /\
       exists e, _cache (manager s) !! name = Some e /\ r = Ok (tools e)) /\
    (c2 = false -> loads s' = name :: loads s) /\
    (time_time w1 = time_time (world s) -> c2 = c) /\
    ((forall e, _cache (manager s) !! name = Some e -> expires_at e = None) ->
     c2 = c).
Proof.
  rewrite !describe_spec.
  destruct (_providers (manager s) !! name) as [p|] eqn:Hp; [|done].
  intros [= <- <-]. split; [intros Hk; by apply Hk|].
  destruct (_cache (manager s) !! name) as [e|] eqn:He.
  - exists (valid e (world s)).
    assert (time_time w1 = time_time (world s) ->
            valid e (world s) = valid e w1) as Hsame.
    { intros Ht. unfold valid. by rewrite Ht. }
    assert ((forall e0, Some e = Some e0 -> expires_at e0 = None) ->
            valid e (world s) = valid e w1) as Hnone.
    { intros Hn. unfold valid. by rewrite (Hn e eq_refl). }
    destruct (valid e (world s)) eqn:Hv.
    + assert (cache_hit name false s = Some (tools e)) as Hc.
      { unfold cache_hit. by rewrite He, Hv. }
      exists (Ok (tools e)), s. split; [done|].
      split; [by eapply asyncio_run_hit|].
      split; [intros _; split; [done|by exists e]|].
      split; [done|]. split; [exact Hsame|exact Hnone].
    + assert (cache_hit name false s = None) as Hc.
      { unfold cache_hit. by rewrite He, Hv. }
      exists (after_load name p s).1, (after_load name p s).2.
      split; [done|].
      rewrite (get_tools_loads name false p s Hp Hc).
      split; [by destruct (after_load name p s)|].
      split; [done|]. split; [intros _; apply loads_after_load|].
      split; [exact Hsame|exact Hnone].
  - assert (cache_hit name false s = None) as Hc.
    { unfold cache_hit. by rewrite He. }
    exists false, (after_load name p s).1, (after_load name p s).2.
    split; [done|].
    rewrite (get_tools_loads name false p s Hp Hc).
    split; [by destruct (after_load name p s)|].
    split; [done|]. split; [intros _; apply loads_after_load|].
    split; done.
Qed.

(** X4. A call with [refresh=True] loads whatever the cache holds, and a
    successful load replaces the entry of the name by the new list with a
    new expiry. *)
Theorem refresh_replaces_entry name p s ts w1 :
  _providers (manager s) !! name = Some p ->
  load p (world s) = (Ok ts, w1) ->
  exists s1,
    get_tools name true false s = Some (Ok ts, s1) /\
    loads s1 = name :: loads s /\
    world s1 = w1 /\
    _cache (manager s1) !! name
      = Some {| tools := ts; expires_at := expiry (cache_ttl p) w1 |}.
Proof.
  intros Hp Hl.
  rewrite (get_tools_loads name true p s Hp (cache_hit_refresh name s)).
  unfold after_load. rewrite Hl. eexists. split; [reflexivity|]. cbn.
  split; [done|]. split; [done|]. by rewrite lookup_insert_eq.
Qed.

(** X5. When the load of a refreshing call raises, whatever the kind of
    provider, the exception reaches the caller and the manager is as
    before; the entry that was cached is still served to a later call
    without refresh while it is valid. *)
Theorem failed_refresh_keeps_entry name p s e w1 old w2 :
  _providers (manager s) !! name = Some p ->
  _cache (manager s) !! name = Some old ->
  load p (world s) = (Raise e, w1) ->
  exists s1,
    get_tools name true false s = Some (Raise e, s1) /\
    manager s1 = manager s /\
    (valid old w2 = true ->
       get_tools name false false (at_world w2 s1)
         = Some (Ok (tools old), at_world w2 s1)).
Proof.
  intros Hp Ho Hl.
  rewrite (get_tools_loads name true p s Hp (cache_hit_refresh name s)).
  unfold after_load. rewrite Hl. eexists. split; [reflexivity|]. cbn.
  split; [done|]. intros Hv.
  eapply asyncio_run_hit; [exact Hp|].
  unfold cache_hit. cbn. by rewrite Ho, Hv.
Qed.

(** X6. In the default mode a failure of the server is cached like a
    result: the call returns the empty list and stores it, and while that
    entry is valid later calls without refresh return the empty list
    without a load, whatever the server would answer by then. *)
Theorem default_mode_failure_is_cached
    name refresh p factory kwargs s cfg c exc w1 w2 :
  _providers (manager s) !! name = Some p ->
  impl p = MCPImpl factory kwargs false ->
  cache_hit name refresh s = None ->
  factory (world s) = Ok (Some cfg) ->
  dict_truthy cfg = true ->
  _build_client kwargs cfg = Ok c ->
  client_get_tools c (world s) = (Raise exc, w1) ->
  exists s1,
    get_tools name refresh false s = Some (Ok [], s1) /\
    _cache (manager s1) !! name
      = Some {| tools := []; expires_at := expiry (cache_ttl p) w1 |} /\
    (valid {| tools := []; expires_at := expiry (cache_ttl p) w1 |} w2 = true ->
       get_tools name false false (at_world w2 s1)
         = Some (Ok [], at_world w2 s1)).
Proof.
  intros Hp Hi Hc Hf Hd Hb Hg.
  assert (load p (world s) = (Ok [], w1)) as Hl.
  { rewrite load_unfold. unfold _load. rewrite Hi. unfold MCP_load.
    by rewrite Hf, Hd, Hb, Hg. }
  exists (after_load name p s).2.
  split; [by eapply get_tools_first|].
  split.
  { unfold after_load. rewrite Hl. cbn. by rewrite lookup_insert_eq. }
  intros Hv. by rewrite (get_tools_second name p s [] w1 w2 Hp Hl), Hv.
Qed.

(** X7. The client is built outside the [try]: when its constructor
    rejects the configuration, the exception leaves [load] as it leaves a
    coroutine, in strict and in default mode alike, neither wrapped in a
    [ToolManagerError] nor turned into an empty list; the call raises it
    and caches nothing.  Unless the exception is a [StopIteration], it is
    raised as it is. *)
Theorem client_constructor_failure_escapes
    name refresh p factory kwargs strict s cfg e :
  _providers (manager s) !! name = Some p ->
  impl p = MCPImpl factory kwargs strict ->
  cache_hit name refresh s = None ->
  factory (world s) = Ok (Some cfg) ->
  dict_truthy cfg = true ->
  _build_client kwargs cfg = Raise e ->
  load p (world s) = (Raise (coroutine_raise e), world s) /\
  ((forall msg, e <> StopIteration msg) -> coroutine_raise e = e) /\
  exists s1,
    get_tools name refresh false s = Some (Raise (coroutine_raise e), s1) /\
    manager s1 = manager s.
Proof.
  intros Hp Hi Hc Hf Hd Hb.
  assert (load p (world s) = (Raise (coroutine_raise e), world s)) as Hl.
  { rewrite load_unfold. unfold _load. rewrite Hi. unfold MCP_load.
    by rewrite Hf, Hd, Hb. }
  split; [done|]. split; [apply coroutine_raise_other|].
  rewrite (get_tools_loads name refresh p s Hp Hc).
  unfold after_load. rewrite Hl. by eexists.
Qed.

(** X14. [clear_cache] never raises and never touches the registry.  With a
    name it drops the entry of that name only; with [None], and with the
    empty string, it drops every entry.  Either way the next call for a
    name it cleared makes a load. *)
Theorem clear_cache_forces_reload name m :
  (clear_cache name m).1 = Ok tt /\
  _providers (clear_cache name m).2 = _providers m /\
  (forall n, name = Some n -> n <> "" ->
     _cache (clear_cache name m).2 = delete n (_cache m)) /\
  (name = None \/ name = Some "" -> _cache (clear_cache name m).2 = ∅) /\
  (forall n p refresh s,
     name = None \/ name = Some "" \/ name = Some n ->
     manager s = (clear_cache name m).2 ->
     _providers m !! n = Some p ->
     get_tools n refresh false s = Some (after_load n p s)).
Proof.
  assert (forall n, str_truthy n = false <-> n = "") as Hempty.
  { intros [|a n]; cbn; split; done. }
  split; [destruct name as [n|]; cbn; [by destruct (str_truthy n)|done]|].
  split; [destruct name as [n|]; cbn; [by destruct (str_truthy n)|done]|].
  split.
  { intros n -> Hn. cbn. destruct (str_truthy n) eqn:Ht; [done|].
    by apply Hempty in Ht. }
  split; [by intros [-> | ->]|].
  intros n p refresh s Hname Hs Hp.
  apply get_tools_loads.
  - rewrite Hs. destruct name as [n'|]; cbn; [by destruct (str_truthy n')|done].
  - apply cache_hit_absent. rewrite Hs.
    destruct Hname as [-> | [-> | ->]]; cbn; try done.
    destruct (str_truthy n); cbn; [apply lookup_delete_eq|done].
Qed.

End EntryPoint.

(** ** The directory of specs *)

Section Directory.
Context {client : MCPClient}.

Lemma build_provider_name spec :
  name (registry.build_provider spec) = registry.tool_name spec.
Proof. unfold registry.build_provider. by destruct (registry.variant spec). Qed.

Lemma build_provider_impl spec :
  exists factory,
    impl (registry.build_provider spec) = MCPImpl factory ∅ false.
Proof.
  unfold registry.build_provider.
  destruct (registry.variant spec); by eexists.
Qed.

Lemma build_provider_cache_ttl spec :
  cache_ttl (registry.build_provider spec) = registry.cache_ttl spec.
Proof. unfold registry.build_provider. by destruct (registry.variant spec). Qed.

Lemma is_registered_true name m :
  is_registered name m = true <-> is_Some (_providers m !! name).
Proof.
  unfold is_registered, dict_contains.
  destruct (_providers m !! name); split; intros Hx; done.
Qed.

Lemma is_registered_false name m :
  is_registered name m = false <-> _providers m !! name = None.
Proof.
  unfold is_registered, dict_contains.
  by destruct (_providers m !! name).
Qed.

Lemma with_manager_id s : registry.with_manager (manager s) s = s.
Proof. by destruct s. Qed.

Lemma ensure_registered name specs m :
  is_registered name m = true ->
  registry.ensure_tool_registered name specs m = (Ok tt, m).
Proof. intros Hr. unfold registry.ensure_tool_registered. by rewrite Hr. Qed.

Lemma ensure_materialises name specs m spec :
  registry.tool_name spec = name ->
  is_registered name m = false ->
  specs !! name = Some spec ->
  registry.ensure_tool_registered name specs m =
    (Ok tt,
     {| _providers := <[name := registry.build_provider spec]> (_providers m);
        _cache := delete name (_cache m) |}).
Proof.
  intros Hk Hr Hs. unfold registry.ensure_tool_registered.
  rewrite Hr, Hs. unfold register_provider.
  rewrite build_provider_name, Hk. unfold is_registered in Hr. by rewrite Hr.
Qed.

Lemma registry_get_tools_registered name refresh running_loop specs s :
  is_registered name (manager s) = true ->
  registry.get_tools name refresh running_loop specs s =
    get_tools name refresh running_loop s.
Proof.
  intros Hr. unfold registry.get_tools.
  by rewrite (ensure_registered _ _ _ Hr), with_manager_id.
Qed.

(** X9. In a directory where every spec is filed under its own name,
    [ensure_tool_registered] is idempotent.  A name already registered is
    left alone, provider and cache entry, even when a spec exists for it; a
    name with a spec gets the provider built from the spec; calling it
    again changes nothing and gives the same outcome. *)
Theorem ensure_tool_registered_idempotent name specs m :
  keyed_directory specs ->
  (is_registered name m = true ->
     registry.ensure_tool_registered name specs m = (Ok tt, m)) /\
  (forall spec,
     is_registered name m = false -> specs !! name = Some spec ->
     (registry.ensure_tool_registered name specs m).1 = Ok tt /\
     _providers (registry.ensure_tool_registered name specs m).2 !! name
       = Some (registry.build_provider spec)) /\
  registry.ensure_tool_registered name specs
    (registry.ensure_tool_registered name specs m).2
  = registry.ensure_tool_registered name specs m.
Proof.
  intros Hk. split; [apply ensure_registered|]. split.
  - intros spec Hr Hs.
    rewrite (ensure_materialises name specs m spec (Hk _ _ Hs) Hr Hs). cbn.
    split; [done|apply lookup_insert_eq].
  - destruct (is_registered name m) eqn:Hr.
    + by rewrite !(ensure_registered _ _ _ Hr).
    + destruct (specs !! name) as [spec|] eqn:Hs.
      * rewrite (ensure_materialises name specs m spec (Hk _ _ Hs) Hr Hs).
        apply ensure_registered. apply is_registered_true. cbn.
        by rewrite lookup_insert_eq.
      * unfold registry.ensure_tool_registered at 2. rewrite Hr, Hs. cbn.
        unfold registry.ensure_tool_registered. by rewrite Hr, Hs.
Qed.

Lemma register_spec_keyed spec override specs :
  keyed_directory specs ->
  keyed_directory (registry.register_spec spec override specs).2.
Proof.
  intros Hk. unfold registry.register_spec.
  destruct (dict_contains specs (registry.tool_name spec) && negb override);
    [done|].
  cbn. intros n sp. rewrite lookup_insert.
  case_decide; [by intros [= <-]|by apply Hk].
Qed.

Lemma foldl_register_spec_keyed l specs :
  keyed_directory specs ->
  keyed_directory
    (foldl (fun specs spec => (registry.register_spec spec false specs).2)
           specs l).
Proof.
  revert specs. induction l as [|spec l IH]; intros specs Hk; [done|].
  cbn. apply IH. by apply register_spec_keyed.
Qed.

Lemma builtin_directory_keyed : keyed_directory registry._TOOL_SPECS_at_import.
Proof.
  apply foldl_register_spec_keyed. intros n sp. by rewrite lookup_empty.
Qed.

(** X10. [register_spec] files a spec under its tool name: a name already
    taken is refused without override, and the directory is then left as
    it was; otherwise the spec replaces whatever was filed there.  So a
    directory built by [register_spec] alone, such as the one the module
    builds when imported, has every spec under its own name. *)
Theorem register_spec_keeps_directory_keyed spec override specs :
  (is_Some (specs !! registry.tool_name spec) -> override = false ->
     raises_ToolManagerError (registry.register_spec spec override specs).1 /\
     (registry.register_spec spec override specs).2 = specs) /\
  (specs !! registry.tool_name spec = None \/ override = true ->
     registry.register_spec spec override specs
       = (Ok tt, <[registry.tool_name spec := spec]> specs)) /\
  (keyed_directory specs ->
     keyed_directory (registry.register_spec spec override specs).2) /\
  keyed_directory registry._TOOL_SPECS_at_import.
Proof.
  split.
  { intros [sp Hs] ->. unfold registry.register_spec, dict_contains.
    rewrite Hs. cbn. split; [by eexists _, _|done]. }
  split.
  { unfold registry.register_spec, dict_contains.
    intros [-> | ->]; [done|]. by rewrite andb_false_r. }
  split; [apply register_spec_keyed|].
  apply foldl_register_spec_keyed. intros n sp. by rewrite lookup_empty.
Qed.

Lemma dict_truthy_singleton {V : Type} (k : string) (v : V) :
  dict_truthy ({[ k := v ]} : gmap string V) = true.
Proof. unfold dict_truthy. by rewrite map_size_singleton. Qed.

Lemma str_truthy_nonempty k : k <> "" -> str_truthy k = true.
Proof. by destruct k. Qed.





(** X19. What the factory of a provider built from a spec gives.  It
    yields no configuration, so that the provider is disabled, for a
    DashScope spec with an empty API key and for a stdio spec whose
    environment factory returns [None]; a static spec is never disabled.
    It raises exactly when the environment factory of a stdio spec raises,
    and raises the same exception.  In every other case it yields a
    configuration with exactly one server, so the load goes to the client;
    an empty environment, in particular, does not disable a stdio spec. *)
Theorem only_missing_credentials_disable_a_spec spec w :
  exists factory,
    impl (registry.build_provider spec) = MCPImpl factory ∅ false /\
    (unconfigured spec w -> factory w = Ok None) /\
    (forall e, env_raises spec w e <-> factory w = Raise e) /\
    (~ unconfigured spec w -> (forall e, ~ env_raises spec w e) ->
       exists cfg, factory w = Ok (Some cfg) /\ dict_truthy cfg = true /\
                   size cfg = 1).
Proof.
  unfold registry.build_provider, unconfigured, env_raises.
  destruct (registry.variant spec) as [sv tr | sv cmd args ef | sv tr url hd ex];
    eexists; (split; [reflexivity|]); cbn.
  - unfold registry.DashScope_servers. split; [by intros ->|].
    split; [intros e; by destruct (negb (str_truthy _))|].
    intros Hkey _. rewrite (str_truthy_nonempty _ Hkey). cbn.
    eexists. split; [done|].
    split; [apply dict_truthy_singleton|apply map_size_singleton].
  - unfold registry.StdIO_servers. split; [by intros ->|].
    split.
    { intros e. destruct (ef w) as [[env|]|e0]; split; intros Hx;
        by simplify_eq. }
    intros Hnone Hno. destruct (ef w) as [[env|]|e0]; [|done|by destruct (Hno e0)].
    eexists. split; [done|].
    split; [apply dict_truthy_singleton|apply map_size_singleton].
  - split; [done|]. split; [done|]. intros _ _. eexists. split; [done|].
    unfold registry.Static_servers.
    split; [apply dict_truthy_singleton|apply map_size_singleton].
Qed.

End Directory.

Section WellFormed.
Context {client : MCPClient}.

Lemma register_provider_well_formed provider override m :
  well_formed m -> well_formed (register_provider provider override m).2.
Proof.
  intros [Hk Hc]. unfold register_provider.
  destruct (dict_contains (_providers m) (name provider) && negb override);
    [done|].
  split.
  - intros n p. cbn. rewrite lookup_insert.
    case_decide; [by intros [= <-]|by apply Hk].
  - intros n. cbn. rewrite lookup_delete, lookup_insert.
    case_decide; [by intros [? ?]|by apply Hc].
Qed.

Lemma clear_cache_well_formed name m :
  well_formed m -> well_formed (clear_cache name m).2.
Proof.
  intros [Hk Hc].
  assert (well_formed {| _providers := _providers m; _cache := ∅ |}) as He.
  { split; [done|]. intros n. cbn. rewrite lookup_empty. by intros [? ?]. }
  destruct name as [n|]; cbn; [|done].
  destruct (str_truthy n); cbn; [|done].
  split; [done|]. intros n'. cbn. rewrite lookup_delete.
  case_decide; [by intros [? ?]|by apply Hc].
Qed.

Lemma after_load_well_formed name p s :
  _providers (manager s) !! name = Some p ->
  well_formed (manager s) -> well_formed (manager (after_load name p s).2).
Proof.
  intros Hp [Hk Hc]. unfold after_load.
  destruct (load p (world s)) as [[ts|e] w']; cbn; [|done].
  split; [done|]. intros n. cbn. rewrite lookup_insert.
  case_decide; [subst; by rewrite Hp|by apply Hc].
Qed.

Lemma ensure_well_formed name specs m :
  well_formed m -> well_formed (registry.ensure_tool_registered name specs m).2.
Proof.
  intros Hw. unfold registry.ensure_tool_registered.
  destruct (is_registered name m); [done|].
  destruct (specs !! name); [|done].
  by apply register_provider_well_formed.
Qed.

Lemma ToolManager_init_well_formed : well_formed ToolManager_init.
Proof.
  split; [intros n p|intros n]; cbn; rewrite lookup_empty; [done|].
  by intros [? ?].
Qed.

(** X1. The manager stays well formed: every provider is registered under
    its own name and every cache entry belongs to a registered name.  This
    holds for the new manager and is kept by [register_provider],
    [clear_cache], [get_tools], [ensure_tool_registered] and
    [register_callable_tool], whatever their arguments and outcome. *)
Theorem manager_stays_well_formed :
  well_formed ToolManager_init /\
  (forall provider override m,
     well_formed m -> well_formed (register_provider provider override m).2) /\
  (forall name m, well_formed m -> well_formed (clear_cache name m).2) /\
  (forall name refresh running_loop s r s',
     well_formed (manager s) ->
     get_tools name refresh running_loop s = Some (r, s') ->
     well_formed (manager s')) /\
  (forall name specs m,
     well_formed m ->
     well_formed (registry.ensure_tool_registered name specs m).2) /\
  (forall name builder description tags ttl override m,
     well_formed m ->
     well_formed (registry.register_callable_tool name builder description
                    tags ttl override m).2).
Proof.
  split; [apply ToolManager_init_well_formed|].
  split; [apply register_provider_well_formed|].
  split; [apply clear_cache_well_formed|].
  split.
  { intros name refresh rl s r s' Hw
      [(-> & _) | [(-> & _) | (_ & p & Hp & Hc & Ha)]]%get_tools_cases;
      [done|done|].
    assert (s' = (after_load name p s).2) as -> by by rewrite <- Ha.
    by apply after_load_well_formed. }
  split; [apply ensure_well_formed|].
  intros. by apply register_provider_well_formed.
Qed.

(** X8. A DashScope spec without TTL, used for the first time while no API
    key is set: the call returns the empty list and caches it.  Once the
    key is set, a call without refresh still returns the empty list; a
    call with [refresh=True] loads from the server; after it, calls
    without refresh return the server's list with no further load. *)
Theorem credential_noticed_only_on_refresh
    name specs spec server transport s w2 cfg c ts w3 w4 :
  keyed_directory specs ->
  specs !! name = Some spec ->
  registry.variant spec = registry.DashScopeMCP server transport ->
  registry.cache_ttl spec = None ->
  _providers (manager s) !! name = None ->
  dashscope_api_key (settings (world s)) = "" ->
  registry.DashScope_servers server transport w2 = Ok (Some cfg) ->
  _build_client ∅ cfg = Ok c ->
  client_get_tools c w2 = (Ok ts, w3) ->
  exists s1 s2,
    registry.get_tools name false false specs s = Some (Ok [], s1) /\
    loads s1 = name :: loads s /\
    registry.get_tools name false false specs (at_world w2 s1)
      = Some (Ok [], at_world w2 s1) /\
    registry.get_tools name true false specs (at_world w2 s1)
      = Some (Ok ts, s2) /\
    loads s2 = name :: loads s1 /\
    registry.get_tools name false false specs (at_world w4 s2)
      = Some (Ok ts, at_world w4 s2).
Proof.
  intros Hk Hs Hv Httl Hp Hkey Hcfg Hb Hg.
  set (p := registry.build_provider spec).
  assert (impl p = MCPImpl (registry.DashScope_servers server transport) ∅ false)
    as Hi.
  { unfold p, registry.build_provider. by rewrite Hv. }
  assert (cache_ttl p = None) as Hpt.
  { unfold p. by rewrite build_provider_cache_ttl. }
  assert (dict_truthy cfg = true) as Hd.
  { unfold registry.DashScope_servers in Hcfg.
    destruct (negb (str_truthy _)); [done|].
    injection Hcfg as <-. apply dict_truthy_singleton. }
  (* the manager once the provider is materialised *)
  set (s0 := registry.with_manager
               {| _providers := <[name := p]> (_providers (manager s));
                  _cache := delete name (_cache (manager s)) |} s).
  assert (registry.ensure_tool_registered name specs (manager s)
          = (Ok tt, manager s0)) as He.
  { apply ensure_materialises; [by apply Hk|by apply is_registered_false|done]. }
  assert (_providers (manager s0) !! name = Some p) as Hp0
    by apply lookup_insert_eq.
  assert (load p (world s0) = (Ok [], world s0)) as Hl0.
  { rewrite load_unfold. unfold _load. rewrite Hi. unfold MCP_load. cbn.
    unfold registry.DashScope_servers. by rewrite Hkey. }
  assert (cache_hit name false s0 = None) as Hc0.
  { apply cache_hit_absent. cbn. apply lookup_delete_eq. }
  set (s1 := (after_load name p s0).2).
  assert (_providers (manager s1) !! name = Some p) as Hp1.
  { unfold s1. by rewrite providers_after_load. }
  assert (forall w, is_registered name (manager (at_world w s1)) = true) as Hr1.
  { intros w. apply is_registered_true. cbn. by rewrite Hp1. }
  assert (load p w2 = (Ok ts, w3)) as Hl2.
  { rewrite load_unfold. unfold _load. rewrite Hi. unfold MCP_load.
    by rewrite Hcfg, Hd, Hb, Hg. }
  set (s2 := (after_load name p (at_world w2 s1)).2).
  exists s1, s2.
  split.
  { unfold registry.get_tools. rewrite He.
    by apply (get_tools_first name false p s0 [] (world s0)). }
  split; [unfold s1; by rewrite loads_after_load|].
  split.
  { rewrite registry_get_tools_registered by apply Hr1.
    unfold s1.
    by rewrite (get_tools_second name p s0 [] (world s0) w2 Hp0 Hl0), Hpt. }
  split.
  { rewrite registry_get_tools_registered by apply Hr1.
    apply (get_tools_first name true p (at_world w2 s1) ts w3);
      [done|apply cache_hit_refresh|done]. }
  split; [unfold s2; by rewrite loads_after_load|].
  rewrite registry_get_tools_registered.
  - unfold s2.
    by rewrite (get_tools_second name p (at_world w2 s1) ts w3 w4 Hp1 Hl2), Hpt.
  - apply is_registered_true. cbn. unfold s2.
    rewrite providers_after_load. cbn. by rewrite Hp1.
Qed.

End WellFormed.

(** ** Listings *)

Section Listings.

Lemma ascii_compare_lt_trans a b c :
  Ascii.compare a b = Lt -> Ascii.compare b c = Lt -> Ascii.compare a c = Lt.
Proof. unfold Ascii.compare. rewrite !N.compare_lt_iff. lia. Qed.

Lemma string_compare_lt_trans s1 s2 s3 :
  String.compare s1 s2 = Lt -> String.compare s2 s3 = Lt ->
  String.compare s1 s3 = Lt.
Proof.
  revert s2 s3.
  induction s1 as [|a s1 IH]; intros [|b s2] [|c s3]; cbn; try done.
  destruct (Ascii.compare a b) eqn:Hab; try done.
  - apply Ascii.compare_eq_iff in Hab as ->.
    destruct (Ascii.compare b c); try done. apply IH.
  - destruct (Ascii.compare b c) eqn:Hbc; try done.
    + apply Ascii.compare_eq_iff in Hbc as <-. by rewrite Hab.
    + by rewrite (ascii_compare_lt_trans _ _ _ Hab Hbc).
Qed.

#[local] Instance str_le_transitive : Transitive str_le.
Proof.
  intros s1 s2 s3. unfold str_le, String.leb.
  destruct (String.compare s1 s2) eqn:H12; try done;
    destruct (String.compare s2 s3) eqn:H23; try done; intros _ _.
  - apply String.compare_eq_iff in H12 as ->. by rewrite H23.
  - apply String.compare_eq_iff in H12 as ->. by rewrite H23.
  - apply String.compare_eq_iff in H23 as <-. by rewrite H12.
  - by rewrite (string_compare_lt_trans _ _ _ H12 H23).
Qed.

#[local] Instance str_le_total : Total str_le.
Proof. intros a b. apply String.leb_total. Qed.

Lemma sorted_Permutation l : sorted l ≡ₚ l.
Proof. apply merge_sort_Permutation. Qed.

Lemma sorted_StronglySorted l : StronglySorted str_le (sorted l).
Proof. apply Sorted_StronglySorted; [apply _|]. apply Sorted_merge_sort, _. Qed.

Lemma elem_of_keys {V : Type} (d : gmap string V) n :
  n ∈ keys d <-> is_Some (d !! n).
Proof.
  unfold keys. rewrite list_elem_of_fmap. split.
  - intros ([k v] & -> & Hkv). apply elem_of_map_to_list in Hkv. by exists v.
  - intros [v Hv]. exists (n, v). split; [done|]. by apply elem_of_map_to_list.
Qed.

Lemma NoDup_keys {V : Type} (d : gmap string V) : NoDup (keys d).
Proof. apply NoDup_fst_map_to_list. Qed.

Lemma elem_of_sorted_keys {V : Type} (d : gmap string V) n :
  n ∈ sorted (keys d) <-> is_Some (d !! n).
Proof. by rewrite sorted_Permutation, elem_of_keys. Qed.

Lemma NoDup_sorted_keys {V : Type} (d : gmap string V) :
  NoDup (sorted (keys d)).
Proof. rewrite sorted_Permutation. apply NoDup_keys. Qed.

(** [describe] over names that are all registered. *)
Lemma describe_all m w names :
  (forall n, n ∈ names -> is_Some (_providers m !! n)) ->
  exists ds,
    foldr (fun name rest =>
             match describe name m w with
             | Raise e => Raise e
             | Ok d =>
                 match rest with
                 | Ok ds => Ok (d :: ds)
                 | Raise e => Raise e
                 end
             end) (Ok []) names = Ok ds /\
    Forall2 (fun n d => describe n m w = Ok d) names ds.
Proof.
  induction names as [|n names IH]; intros Hreg; cbn.
  - exists []. by split.
  - destruct IH as (ds & -> & Hds).
    { intros n' Hn'. apply Hreg. by right. }
    destruct (Hreg n) as [p Hp]; [by left|].
    rewrite describe_spec, Hp. eexists. split; [done|].
    constructor; [|done]. by rewrite describe_spec, Hp.
Qed.

Lemma describe_name m w n d :
  well_keyed m -> describe n m w = Ok d -> md_name d.1 = n.
Proof.
  intros Hk. rewrite describe_spec.
  destruct (_providers m !! n) as [p|] eqn:Hp; [|done].
  intros [= <-]. cbn. by apply Hk.
Qed.

(** X12. [list_providers] never raises.  In a well-keyed registry it
    describes every registered provider exactly once, in strictly
    ascending order of name, and each element is what [describe] returns
    for that name. *)
Theorem list_providers_sorted_complete m w :
  well_keyed m ->
  exists ds,
    list_providers m w = Ok ds /\
    StronglySorted str_le ((fun d => md_name d.1) <$> ds) /\
    NoDup ((fun d => md_name d.1) <$> ds) /\
    (forall n, n ∈ (fun d => md_name d.1) <$> ds <->
               is_registered n m = true) /\
    (forall d, d ∈ ds -> describe (md_name d.1) m w = Ok d).
Proof.
  intros Hk.
  destruct (describe_all m w (sorted (keys (_providers m)))) as (ds & Hds & Hall).
  { intros n. by rewrite elem_of_sorted_keys. }
  assert ((fun d => md_name d.1) <$> ds = sorted (keys (_providers m))) as Hnames.
  { clear Hds. induction Hall as [|n d names ds Hd _ IH]; [done|].
    cbn. by rewrite IH, (describe_name m w n d Hk Hd). }
  exists ds. split; [done|]. rewrite Hnames.
  split; [apply sorted_StronglySorted|].
  split; [apply NoDup_sorted_keys|].
  split.
  { intros n. by rewrite elem_of_sorted_keys, is_registered_true. }
  intros d Hd. clear Hds Hnames.
  induction Hall as [|n d' names ds Hd' _ IH]; [by apply elem_of_nil in Hd|].
  apply elem_of_cons in Hd as [-> | Hd]; [|by apply IH].
  by rewrite (describe_name m w n d' Hk Hd').
Qed.

(** X13. [list_specs] gives the names that have a spec, each once, in
    strictly ascending order; a spec that [register_spec] accepts adds its
    name to the listing and removes none. *)
Theorem list_specs_sorted_complete specs :
  StronglySorted str_le (registry.list_specs specs) /\
  NoDup (registry.list_specs specs) /\
  (forall n, n ∈ registry.list_specs specs <-> is_Some (specs !! n)) /\
  (forall spec override n,
     specs !! registry.tool_name spec = None \/ override = true ->
     n ∈ registry.list_specs (registry.register_spec spec override specs).2
     <-> n = registry.tool_name spec \/ n ∈ registry.list_specs specs).
Proof.
  unfold registry.list_specs.
  split; [apply sorted_StronglySorted|].
  split; [apply NoDup_sorted_keys|].
  split; [intros n; apply elem_of_sorted_keys|].
  intros spec override n Hok.
  assert (registry.register_spec spec override specs
          = (Ok tt, <[registry.tool_name spec := spec]> specs)) as ->.
  { unfold registry.register_spec, dict_contains.
    destruct Hok as [-> | ->]; [done|]. by rewrite andb_false_r. }
  cbn. rewrite !elem_of_sorted_keys, lookup_insert.
  case_decide as Hn.
  - subst. split; [by left|by eexists].
  - split; [by right|]. intros [-> | ?]; done.
Qed.

End Listings.

(** ** The tool modules *)

Section ToolModules.
Context {client : MCPClient}.

(** X17. Importing a tool module amounts to one call of the module-level
    [get_tools]: the registration it ensures first is ensured again by
    that call.  When the import happens inside a running event loop for a
    name not yet registered, it fails with the [ToolManagerError] of the
    blocking entry point, but only after the provider has been built from
    the spec and registered; nothing is loaded or cached. *)
Theorem tool_module_import name specs s :
  keyed_directory specs ->
  (forall running_loop,
     tool_modules.import_tool_module name running_loop specs s
       = registry.get_tools name false running_loop specs s) /\
  (forall spec,
     specs !! name = Some spec ->
     _providers (manager s) !! name = None ->
     exists msg s',
       tool_modules.import_tool_module name true specs s
         = Some (Raise (ToolManagerError msg None), s') /\
       _providers (manager s') !! name = Some (registry.build_provider spec) /\
       _cache (manager s') !! name = None /\
       loads s' = loads s).
Proof.
  intros Hk.
  assert (forall running_loop,
            tool_modules.import_tool_module name running_loop specs s
              = registry.get_tools name false running_loop specs s) as Hsame.
  { intros rl. unfold tool_modules.import_tool_module.
    destruct (is_registered name (manager s)) eqn:Hr.
    - rewrite (ensure_registered _ _ _ Hr). by rewrite with_manager_id.
    - destruct (specs !! name) as [spec|] eqn:Hs.
      + rewrite (ensure_materialises name specs (manager s) spec
                   (Hk _ _ Hs) Hr Hs).
        rewrite registry_get_tools_registered.
        * unfold registry.get_tools.
          by rewrite (ensure_materialises name specs (manager s) spec
                        (Hk _ _ Hs) Hr Hs).
        * apply is_registered_true. cbn. by rewrite lookup_insert_eq.
      + unfold registry.get_tools, registry.ensure_tool_registered.
        by rewrite Hr, Hs. }
  split; [done|].
  intros spec Hs Hp. rewrite Hsame. unfold registry.get_tools.
  rewrite (ensure_materialises name specs (manager s) spec (Hk _ _ Hs));
    [|by apply is_registered_false|done].
  cbn. eexists _, _. split; [done|]. cbn.
  split; [apply lookup_insert_eq|]. split; [apply lookup_delete_eq|done].
Qed.

(** X18. A module that registers a local builder under a fresh name and
    then asks for its tools, outside a loop: the builder runs once and its
    list is bound (the empty list when the builder returns [None]); the
    provider is of kind ["python"].  Running the module body a second time
    raises a [ToolManagerError], since the name is then taken and the
    registration is made without override; the process is left as it
    was. *)
Theorem callable_module_import name builder description tags specs s r w1 :
  _providers (manager s) !! name = None ->
  builder (world s) = (Ok r, w1) ->
  exists s1,
    tool_modules.import_callable_module name builder description tags false
      specs s = Some (Ok (default [] r), s1) /\
    loads s1 = name :: loads s /\
    (exists p, _providers (manager s1) !! name = Some p /\ kind p = "python") /\
    exists msg,
      tool_modules.import_callable_module name builder description tags false
        specs s1 = Some (Raise (ToolManagerError msg None), s1).
Proof.
  intros Hp Hb.
  set (p := CallableToolProvider name builder (Some description) tags None).
  set (s0 := registry.with_manager
               {| _providers := <[name := p]> (_providers (manager s));
                  _cache := delete name (_cache (manager s)) |} s).
  assert (registry.register_callable_tool name builder description tags None
            false (manager s) = (Ok tt, manager s0)) as Hreg.
  { unfold registry.register_callable_tool, register_provider, dict_contains.
    cbn. by rewrite Hp. }
  assert (_providers (manager s0) !! name = Some p) as Hp0
    by apply lookup_insert_eq.
  assert (load p (world s0) = (Ok (default [] r), w1)) as Hl.
  { unfold load, _load, Callable_load. cbn. by rewrite Hb. }
  exists (after_load name p s0).2.
  split.
  { unfold tool_modules.import_callable_module. rewrite Hreg.
    change (registry.with_manager (manager s0) s) with s0.
    rewrite registry_get_tools_registered.
    - apply (get_tools_first name false p s0 _ w1); [done| |done].
      apply cache_hit_absent. cbn. apply lookup_delete_eq.
    - apply is_registered_true. by rewrite Hp0. }
  split; [by rewrite loads_after_load|].
  split.
  { exists p. split; [|done]. by rewrite providers_after_load. }
  eexists. unfold tool_modules.import_callable_module.
  unfold registry.register_callable_tool, register_provider, dict_contains.
  fold p. change (tool_manager.name p) with name.
  rewrite providers_after_load, Hp0. cbn.
  by rewrite with_manager_id.
Qed.

(** X20. The same module imported inside a running event loop: the
    registration succeeds, then the blocking entry point raises, so the
    import fails with the provider left registered.  From then on running
    the module body again fails too, inside or outside a loop, because the
    name is taken: the failed import cannot be repeated in that process. *)
Theorem callable_module_import_in_loop name builder description tags specs s :
  _providers (manager s) !! name = None ->
  exists msg s',
    tool_modules.import_callable_module name builder description tags true
      specs s = Some (Raise (ToolManagerError msg None), s') /\
    is_registered name (manager s') = true /\
    loads s' = loads s /\
    forall running_loop,
      exists msg',
        tool_modules.import_callable_module name builder description tags
          running_loop specs s' = Some (Raise (ToolManagerError msg' None), s').
Proof.
  intros Hp.
  set (p := CallableToolProvider name builder (Some description) tags None).
  set (s0 := registry.with_manager
               {| _providers := <[name := p]> (_providers (manager s));
                  _cache := delete name (_cache (manager s)) |} s).
  assert (registry.register_callable_tool name builder description tags None
            false (manager s) = (Ok tt, manager s0)) as Hreg.
  { unfold registry.register_callable_tool, register_provider, dict_contains.
    cbn. by rewrite Hp. }
  assert (_providers (manager s0) !! name = Some p) as Hp0
    by apply lookup_insert_eq.
  exists "Cannot call synchronous get_tools inside a running event loop. Use 'await get_tools_async'.", s0.
  split.
  { unfold tool_modules.import_callable_module. rewrite Hreg.
    change (registry.with_manager (manager s0) s) with s0.
    rewrite registry_get_tools_registered; [done|].
    apply is_registered_true. by rewrite Hp0. }
  split; [apply is_registered_true; by rewrite Hp0|].
  split; [done|].
  intros running_loop. eexists.
  unfold tool_modules.import_callable_module.
  unfold registry.register_callable_tool, register_provider, dict_contains.
  fold p. change (tool_manager.name p) with name. by rewrite Hp0.
Qed.

End ToolModules.

(* ===================================================================== *)
(** * The properties at sample inputs                                     *)
(* ===================================================================== *)

(** Two calls without refresh find an entry that expired when the clock
    read 50; the load completes when the clock reads 105 and stores an
    entry good until 165.  Two calls with refresh make two loads. *)
Lemma concurrent_calls_for_one_name_witness :
  (exists l,
     exec (client := demo.online)
       [Run 0; Run 1; Clock (demo.seconds 105); Run 0; Run 1]
       (concurrent_calls "local" false 2 demo.sys_stale ∅) = Some l /\
     completed l = true /\
     loads (sys l) = ["local"] /\
     exists now ts w',
       now ∈ [demo.seconds 100; demo.seconds 105] /\
       load (client := demo.online) (demo.local_tools (Some (demo.seconds 60)))
         (at_time now demo.w0) = (Ok ts, w') /\
       _cache (manager (sys l)) !! "local"
         = Some (stored (demo.local_tools (Some (demo.seconds 60))) ts w') /\
       forall i, i < 2 -> result_of i l = Some (Ok ts)) /\
  (exists l,
     exec (client := demo.online) [Run 0; Run 1; Run 0; Run 1; Run 1]
       (concurrent_calls "local" true 2 demo.sys_stale ∅) = Some l /\
     completed l = true /\
     loads (sys l) = ["local"; "local"]).
Proof.
  assert (forall n lk, (∅ : gmap string Lock) !! n = Some lk -> lk = Lock_init)
    as Hfree by (intros n lk Hlk; by rewrite lookup_empty in Hlk).
  split.
  - eexists. split; [vm_compute; reflexivity|]. split; [reflexivity|].
    eapply (proj1 (concurrent_calls_for_one_name (client := demo.online)
                     "local" (demo.local_tools (Some (demo.seconds 60)))
                     demo.sys_stale ∅ 2
                     [Run 0; Run 1; Clock (demo.seconds 105); Run 0; Run 1]
                     _ eq_refl Hfree ltac:(lia))).
    + intros old now Hold Hnow. vm_compute in Hold. injection Hold as <-.
      apply elem_of_cons in Hnow as [-> | Hnow];
        [|apply list_elem_of_singleton in Hnow as ->];
        vm_compute; reflexivity.
    + intros now _. eexists _, _. reflexivity.
    + right. intros now ts w' now' Hnow Hld Hnow'.
      injection Hld as <- <-.
      apply elem_of_cons in Hnow as [-> | Hnow];
        [|apply list_elem_of_singleton in Hnow as ->];
        (apply elem_of_cons in Hnow' as [-> | Hnow'];
         [|apply list_elem_of_singleton in Hnow' as ->]);
        vm_compute; reflexivity.
    + vm_compute. reflexivity.
    + reflexivity.
  - eexists. split; [vm_compute; reflexivity|]. split; [reflexivity|].
    eapply (proj2 (concurrent_calls_for_one_name (client := demo.online)
                     "local" (demo.local_tools (Some (demo.seconds 60)))
                     demo.sys_stale ∅ 2 [Run 0; Run 1; Run 0; Run 1; Run 1]
                     _ eq_refl Hfree ltac:(lia))).
    + vm_compute. reflexivity.
    + reflexivity.
Defined.

Lemma no_ttl_second_call_served_from_cache_witness :
  exists s1,
    get_tools (client := demo.online) "local" false false
      (demo.sys_with (demo.local_tools None) demo.w0)
      = Some (Ok ["now"; "sleep"], s1) /\
    loads s1 = ["local"] /\
    get_tools (client := demo.online) "local" false false
      (at_world (demo.later 1000 demo.w0) s1)
      = Some (Ok ["now"; "sleep"], at_world (demo.later 1000 demo.w0) s1).
Proof.
  apply (no_ttl_second_call_served_from_cache (client := demo.online)
           "local" false (demo.local_tools None)
           (demo.sys_with (demo.local_tools None) demo.w0)
           ["now"; "sleep"] demo.w0 (demo.later 1000 demo.w0));
    reflexivity.
Defined.

(** A TTL of five seconds, a load that completes when the clock reads 100:
    a call when it reads 103 is served from the cache, a call when it
    reads 109 loads again. *)
Lemma ttl_reload_at_stored_expiry_witness :
  exists s1,
    get_tools (client := demo.online) "local" false false
      (demo.sys_with (demo.local_tools (Some (demo.seconds 5))) demo.w0)
      = Some (Ok ["now"; "sleep"], s1) /\
    loads s1 = ["local"] /\
    _cache (manager s1) !! "local"
      = Some {| tools := ["now"; "sleep"];
                expires_at := Some (demo.seconds 105) |} /\
    get_tools (client := demo.online) "local" false false
      (at_world (demo.later 3 demo.w0) s1)
      = Some (Ok ["now"; "sleep"], at_world (demo.later 3 demo.w0) s1) /\
    exists s2,
      get_tools (client := demo.online) "local" false false
        (at_world (demo.later 9 demo.w0) s1)
        = Some (Ok ["now"; "sleep"], s2) /\
      loads s2 = "local" :: loads s1.
Proof.
  destruct (ttl_reload_at_stored_expiry (client := demo.online)
              "local" false (demo.local_tools (Some (demo.seconds 5)))
              (demo.seconds 5)
              (demo.sys_with (demo.local_tools (Some (demo.seconds 5))) demo.w0)
              ["now"; "sleep"] demo.w0 (demo.later 3 demo.w0)
              eq_refl eq_refl eq_refl eq_refl eq_refl)
    as (s1 & Hfirst & Hloads & Hentry & Hbefore & _).
  destruct (ttl_reload_at_stored_expiry (client := demo.online)
              "local" false (demo.local_tools (Some (demo.seconds 5)))
              (demo.seconds 5)
              (demo.sys_with (demo.local_tools (Some (demo.seconds 5))) demo.w0)
              ["now"; "sleep"] demo.w0 (demo.later 9 demo.w0)
              eq_refl eq_refl eq_refl eq_refl eq_refl)
    as (s1' & Hfirst' & _ & _ & _ & Hafter).
  rewrite Hfirst in Hfirst'. injection Hfirst' as <-.
  exists s1. split; [exact Hfirst|]. split; [exact Hloads|].
  split; [rewrite Hentry; vm_compute; reflexivity|].
  split; [apply Hbefore; vm_compute; reflexivity|].
  apply Hafter. vm_compute. reflexivity.
Defined.

Lemma zero_ttl_never_expires_witness :
  exists s1,
    get_tools (client := demo.online) "local" false false
      (demo.sys_with (demo.local_tools (Some (demo.seconds 0))) demo.w0)
      = Some (Ok ["now"; "sleep"], s1) /\
    _cache (manager s1) !! "local"
      = Some {| tools := ["now"; "sleep"]; expires_at := None |} /\
    expiry (cache_ttl (demo.local_tools (Some (demo.seconds 0)))) demo.w0
      = expiry None demo.w0 /\
    valid {| tools := ["now"; "sleep"];
             expires_at := expiry (cache_ttl (demo.local_tools
                                                (Some (demo.seconds 0))))
                             demo.w0 |}
          (demo.later 1000 demo.w0) = true /\
    get_tools (client := demo.online) "local" false false
      (at_world (demo.later 1000 demo.w0) s1)
      = Some (Ok ["now"; "sleep"], at_world (demo.later 1000 demo.w0) s1).
Proof.
  apply (zero_ttl_never_expires (client := demo.online)
           "local" false (demo.local_tools (Some (demo.seconds 0)))
           (demo.seconds 0)
           (demo.sys_with (demo.local_tools (Some (demo.seconds 0))) demo.w0)
           ["now"; "sleep"] demo.w0 (demo.later 1000 demo.w0));
    reflexivity.
Defined.

(** The built-in spec ["weather"] while no DashScope key is set. *)
Lemma unconfigured_remote_loads_nothing_witness :
  load (client := demo.online)
    (registry.build_provider
       (registry.DashScopeMCPSpec "weather" "weather" None (Some "weather")
          (Some ["weather"]) None))
    demo.w0 = (Ok [], demo.w0).
Proof.
  eapply (unconfigured_remote_loads_nothing (client := demo.online)).
  - reflexivity.
  - left. reflexivity.
Defined.

Lemma transport_failure_policy_witness :
  load (client := demo.offline) (demo.remote true) demo.w0 =
    (Raise (ToolManagerError "Failed to load tools for remote"
              (Some (Exception "ConnectionError" "connection refused"))),
     demo.w0) /\
  load (client := demo.offline) (demo.remote false) demo.w0 =
    (Ok [], demo.w0).
Proof.
  split.
  - eapply (proj1 (transport_failure_policy (client := demo.offline)
                     (demo.remote true) _ _ true demo.w0 _ _ _ _
                     eq_refl eq_refl eq_refl eq_refl eq_refl)).
  - eapply (proj1 (transport_failure_policy (client := demo.offline)
                     (demo.remote false) _ _ false demo.w0 _ _ _ _
                     eq_refl eq_refl eq_refl eq_refl eq_refl)).
Defined.

(** A builder that raises a [ValueError], and one that lets a
    [StopIteration] escape. *)
Lemma builder_exception_leaves_coroutine_witness :
  (exists s',
     get_tools (client := demo.online) "broken" true false
       (demo.sys_with demo.broken demo.w0)
       = Some (Raise (Exception "ValueError" "boom"), s') /\
     manager s' = manager (demo.sys_with demo.broken demo.w0)) /\
  (exists s',
     get_tools (client := demo.online) "exhausted" false false
       (demo.sys_with demo.exhausted demo.w0)
       = Some (Raise (RuntimeError "coroutine raised StopIteration"
                        (Some (StopIteration ""))), s') /\
     manager s' = manager (demo.sys_with demo.exhausted demo.w0)).
Proof.
  split.
  - destruct (builder_exception_leaves_coroutine (client := demo.online)
                "broken" true demo.broken _ (demo.sys_with demo.broken demo.w0)
                (Exception "ValueError" "boom") demo.w0
                eq_refl eq_refl eq_refl eq_refl)
      as (s' & Hget & _ & _ & Hm & _).
    exists s'. by split.
  - destruct (builder_exception_leaves_coroutine (client := demo.online)
                "exhausted" false demo.exhausted _
                (demo.sys_with demo.exhausted demo.w0)
                (StopIteration "") demo.w0
                eq_refl eq_refl eq_refl eq_refl)
      as (s' & Hget & _ & _ & Hm & _).
    exists s'. by split.
Defined.

Lemma register_provider_contract_witness :
  (raises_ToolManagerError
     (register_provider (demo.local_tools None) false
        (demo.manager_with (demo.local_tools None))).1 /\
   (register_provider (demo.local_tools None) false
      (demo.manager_with (demo.local_tools None))).2
     = demo.manager_with (demo.local_tools None)) /\
  (register_provider demo.broken true demo.two_providers).1 = Ok tt /\
  _providers (register_provider demo.broken true demo.two_providers).2
    !! "broken" = Some demo.broken /\
  _cache (register_provider demo.broken true demo.two_providers).2
    !! "broken" = None.
Proof.
  split.
  - apply (proj1 (register_provider_contract (demo.local_tools None)
                    (demo.manager_with (demo.local_tools None)))).
    reflexivity.
  - destruct (proj2 (register_provider_contract demo.broken demo.two_providers)
                true) as (Hok & Hp & Hc & _); [by right|].
    split; [exact Hok|]. split; [exact Hp|exact Hc].
Defined.

Lemma blocking_entry_point_witness :
  exists s',
    get_tools (client := demo.online) "local" false false
      (demo.sys_with (demo.local_tools None) demo.w0)
      = Some (Ok ["now"; "sleep"], s') /\
    loads s' = ["local"] /\
    world s' = demo.w0.
Proof.
  apply (proj2 (proj2 (proj2
           (blocking_entry_point (client := demo.online) "local" false
              (demo.sys_with (demo.local_tools None) demo.w0))))
           (demo.local_tools None));
    reflexivity.
Defined.

Lemma unknown_name_operations_witness :
  raises_ToolManagerError
    (describe "ghost" (manager (demo.sys_with demo.broken demo.w0))
       (world (demo.sys_with demo.broken demo.w0))) /\
  (exists msg,
     get_tools (client := demo.online) "ghost" false false
       (demo.sys_with demo.broken demo.w0)
     = Some (Raise (ToolManagerError msg None),
             demo.sys_with demo.broken demo.w0)) /\
  (exists msg,
     registry.get_tools (client := demo.online) "ghost" false false
       registry._TOOL_SPECS_at_import (demo.sys_with demo.broken demo.w0)
     = Some (Raise (ToolManagerError msg None),
             demo.sys_with demo.broken demo.w0)).
Proof.
  destruct (unknown_name_operations (client := demo.online) "ghost"
              (demo.sys_with demo.broken demo.w0)
              registry._TOOL_SPECS_at_import eq_refl)
    as (Hd & Hg & _ & Hr & _).
  split; [exact Hd|]. split; [exact (Hg false false)|].
  destruct (Hr eq_refl) as (_ & Hrg & _). exact (Hrg false false).
Defined.

(** ** The further properties at sample inputs *)

Lemma manager_stays_well_formed_witness :
  well_formed (demo.manager_with (demo.local_tools None)) /\
  forall r s',
    get_tools (client := demo.online) "local" false false
      (demo.sys_with (demo.local_tools None) demo.w0) = Some (r, s') ->
    well_formed (manager s').
Proof.
  destruct (manager_stays_well_formed (client := demo.online))
    as (Hinit & Hreg & _ & Hget & _).
  split; [apply Hreg, Hinit|].
  intros r s' H.
  eapply Hget; [|exact H]. apply Hreg, Hinit.
Defined.

Lemma get_tools_touches_only_its_name_witness :
  exists r s',
    get_tools (client := demo.online) "local" false false demo.sys_two
      = Some (r, s') /\
    _providers (manager s') = _providers demo.two_providers /\
    _cache (manager s') !! "broken"
      = Some {| tools := ["old"]; expires_at := None |}.
Proof.
  eexists _, _. split; [vm_compute; reflexivity|].
  edestruct (get_tools_touches_only_its_name (client := demo.online)
               "local" false false demo.sys_two) as (Hp & Hc & _).
  { vm_compute; reflexivity. }
  split; [exact Hp|]. by rewrite Hc.
Defined.

(** The flag read when the clock reads 100 and a call made when it reads
    1100: the entry of ["broken"] has no expiry. *)
Lemma describe_cached_at_call_time_witness :
  exists r s',
    get_tools (client := demo.online) "broken" false false
      (at_world (demo.later 1000 demo.w0) demo.sys_two) = Some (r, s') /\
    s' = at_world (demo.later 1000 demo.w0) demo.sys_two /\
    r = Ok ["old"].
Proof.
  destruct (describe_cached_at_call_time (client := demo.online)
              "broken" (at_world (demo.later 1000 demo.w0) demo.sys_two)
              demo.w0 (metadata demo.broken) true eq_refl)
    as (_ & c2 & r & s' & _ & Hget & Hhit & _ & _ & Hnone).
  assert (c2 = true) as Hc2.
  { apply Hnone. intros e He. vm_compute in He. by simplify_eq. }
  destruct (Hhit Hc2) as (Hs & e & He & Hr).
  exists r, s'. split; [exact Hget|]. split; [exact Hs|].
  vm_compute in He. by simplify_eq.
Defined.

Lemma refresh_replaces_entry_witness :
  exists s1,
    get_tools (client := demo.online) "local" true false demo.sys_two
      = Some (Ok ["now"; "sleep"], s1) /\
    loads s1 = ["local"] /\
    world s1 = demo.w0 /\
    _cache (manager s1) !! "local"
      = Some {| tools := ["now"; "sleep"]; expires_at := None |}.
Proof.
  apply (refresh_replaces_entry (client := demo.online) "local"
           (demo.local_tools None) demo.sys_two ["now"; "sleep"]
           demo.w0); reflexivity.
Defined.

Lemma failed_refresh_keeps_entry_witness :
  exists s1,
    get_tools (client := demo.online) "broken" true false demo.sys_two
      = Some (Raise (Exception "ValueError" "boom"), s1) /\
    manager s1 = demo.two_providers /\
    get_tools (client := demo.online) "broken" false false
      (at_world (demo.later 50 demo.w0) s1)
      = Some (Ok ["old"], at_world (demo.later 50 demo.w0) s1).
Proof.
  destruct (failed_refresh_keeps_entry (client := demo.online) "broken"
              demo.broken demo.sys_two (Exception "ValueError" "boom")
              demo.w0
              {| tools := ["old"]; expires_at := None |}
              (demo.later 50 demo.w0) eq_refl eq_refl eq_refl)
    as (s1 & H1 & H2 & H3).
  exists s1. split; [exact H1|]. split; [exact H2|]. apply H3. reflexivity.
Defined.

Lemma default_mode_failure_is_cached_witness :
  exists s1,
    get_tools (client := demo.offline) "remote" false false
      (demo.sys_with (demo.remote false) demo.w0) = Some (Ok [], s1) /\
    _cache (manager s1) !! "remote"
      = Some {| tools := []; expires_at := None |} /\
    get_tools (client := demo.offline) "remote" false false
      (at_world (demo.later 1000 demo.w0) s1)
      = Some (Ok [], at_world (demo.later 1000 demo.w0) s1).
Proof.
  edestruct (default_mode_failure_is_cached (client := demo.offline)
               "remote" false (demo.remote false) _ _
               (demo.sys_with (demo.remote false) demo.w0) _ _ _ _
               (demo.later 1000 demo.w0)
               eq_refl eq_refl eq_refl eq_refl eq_refl eq_refl eq_refl)
    as (s1 & H1 & H2 & H3).
  exists s1. split; [exact H1|]. split; [exact H2|]. apply H3. reflexivity.
Defined.

Lemma client_constructor_failure_escapes_witness :
  load (client := demo.rejecting) (demo.remote false) demo.w0
    = (Raise (Exception "TypeError" "unexpected keyword argument"), demo.w0) /\
  exists s1,
    get_tools (client := demo.rejecting) "remote" false false
      (demo.sys_with (demo.remote false) demo.w0)
      = Some (Raise (Exception "TypeError" "unexpected keyword argument"), s1) /\
    manager s1 = demo.manager_with (demo.remote false).
Proof.
  destruct (client_constructor_failure_escapes (client := demo.rejecting)
              "remote" false (demo.remote false) _ _ false
              (demo.sys_with (demo.remote false) demo.w0) _ _
              eq_refl eq_refl eq_refl eq_refl eq_refl eq_refl)
    as (Hload & _ & Hget).
  split; [exact Hload|exact Hget].
Defined.

Lemma clear_cache_forces_reload_witness :
  _cache (clear_cache None demo.two_providers).2 = ∅ /\
  get_tools (client := demo.online) "broken" false false
    {| manager := (clear_cache None demo.two_providers).2;
       world := demo.w0; loads := [] |}
  = Some (after_load (client := demo.online) "broken" demo.broken
            {| manager := (clear_cache None demo.two_providers).2;
               world := demo.w0; loads := [] |}).
Proof.
  destruct (clear_cache_forces_reload (client := demo.online) None
              demo.two_providers) as (_ & _ & _ & Hall & Hre).
  split; [apply Hall; by left|].
  apply (Hre "broken" demo.broken false); [by left|reflexivity|reflexivity].
Defined.

Lemma ensure_tool_registered_idempotent_witness :
  (registry.ensure_tool_registered "weather" registry._TOOL_SPECS_at_import
     ToolManager_init).1 = Ok tt /\
  _providers (registry.ensure_tool_registered "weather"
                registry._TOOL_SPECS_at_import ToolManager_init).2 !! "weather"
    = Some (registry.build_provider demo.weather_spec) /\
  registry.ensure_tool_registered "weather" registry._TOOL_SPECS_at_import
    (registry.ensure_tool_registered "weather" registry._TOOL_SPECS_at_import
       ToolManager_init).2
  = registry.ensure_tool_registered "weather" registry._TOOL_SPECS_at_import
      ToolManager_init.
Proof.
  destruct (ensure_tool_registered_idempotent "weather"
              registry._TOOL_SPECS_at_import ToolManager_init
              builtin_directory_keyed) as (_ & Hnew & Hid).
  destruct (Hnew demo.weather_spec) as [H1 H2];
    [reflexivity|vm_compute; reflexivity|].
  split; [exact H1|]. split; [exact H2|exact Hid].
Defined.

Lemma register_spec_keeps_directory_keyed_witness :
  raises_ToolManagerError
    (registry.register_spec demo.weather_spec false
       registry._TOOL_SPECS_at_import).1 /\
  (registry.register_spec demo.weather_spec false
     registry._TOOL_SPECS_at_import).2 = registry._TOOL_SPECS_at_import.
Proof.
  apply (proj1 (register_spec_keeps_directory_keyed demo.weather_spec false
                  registry._TOOL_SPECS_at_import)); [|reflexivity].
  exists demo.weather_spec. vm_compute; reflexivity.
Defined.


(** ["weather"] without API key is disabled; ["markmap"] without a home
    directory raises; ["markmap"] with the home directory ["/"] is
    configured with one server. *)
Lemma only_missing_credentials_disable_a_spec_witness :
  (exists factory,
     impl (registry.build_provider demo.weather_spec) = MCPImpl factory ∅ false /\
     factory demo.w0 = Ok None) /\
  (exists factory,
     impl (registry.build_provider demo.markmap_spec) = MCPImpl factory ∅ false /\
     factory demo.w_homeless
       = Raise (RuntimeError "Could not determine home directory." None)) /\
  (exists factory cfg,
     impl (registry.build_provider demo.markmap_spec) = MCPImpl factory ∅ false /\
     factory demo.w0 = Ok (Some cfg) /\ size cfg = 1).
Proof.
  split; [|split].
  - destruct (only_missing_credentials_disable_a_spec demo.weather_spec demo.w0)
      as (f & Hf & Hnone & _).
    exists f. split; [exact Hf|]. apply Hnone. reflexivity.
  - destruct (only_missing_credentials_disable_a_spec demo.markmap_spec
                demo.w_homeless) as (f & Hf & _ & Hraise & _).
    exists f. split; [exact Hf|]. apply Hraise. reflexivity.
  - destruct (only_missing_credentials_disable_a_spec demo.markmap_spec demo.w0)
      as (f & Hf & _ & _ & Hcfg).
    destruct Hcfg as (cfg & Hc & _ & Hsize).
    + intros Hu. discriminate Hu.
    + intros e He. discriminate He.
    + exists f, cfg. split; [exact Hf|]. by split.
Defined.

Lemma credential_noticed_only_on_refresh_witness :
  exists s1 s2,
    registry.get_tools (client := demo.online) "weather" false false
      registry._TOOL_SPECS_at_import (demo.sys_init demo.w0)
      = Some (Ok [], s1) /\
    loads s1 = ["weather"] /\
    registry.get_tools (client := demo.online) "weather" false false
      registry._TOOL_SPECS_at_import (at_world demo.w_key s1)
      = Some (Ok [], at_world demo.w_key s1) /\
    registry.get_tools (client := demo.online) "weather" true false
      registry._TOOL_SPECS_at_import (at_world demo.w_key s1)
      = Some (Ok ["get_weather"; "get_forecast"], s2) /\
    loads s2 = "weather" :: loads s1 /\
    registry.get_tools (client := demo.online) "weather" false false
      registry._TOOL_SPECS_at_import (at_world demo.w0 s2)
      = Some (Ok ["get_weather"; "get_forecast"], at_world demo.w0 s2).
Proof.
  eapply (credential_noticed_only_on_refresh (client := demo.online)
            "weather" registry._TOOL_SPECS_at_import demo.weather_spec
            "weather" "sse" (demo.sys_init demo.w0) demo.w_key _ _
            ["get_weather"; "get_forecast"] demo.w_key demo.w0
            builtin_directory_keyed).
  - vm_compute; reflexivity.
  - reflexivity.
  - reflexivity.
  - reflexivity.
  - reflexivity.
  - reflexivity.
  - reflexivity.
  - reflexivity.
Defined.

Lemma list_providers_sorted_complete_witness :
  exists ds,
    list_providers demo.two_providers demo.w0 = Ok ds /\
    StronglySorted str_le ((fun d => md_name d.1) <$> ds) /\
    NoDup ((fun d => md_name d.1) <$> ds) /\
    (forall n, n ∈ (fun d => md_name d.1) <$> ds <->
               is_registered n demo.two_providers = true) /\
    (forall d, d ∈ ds -> describe (md_name d.1) demo.two_providers demo.w0 = Ok d).
Proof.
  apply (list_providers_sorted_complete demo.two_providers demo.w0).
  intros n p H. cbn in H.
  apply lookup_insert_Some in H as [[<- <-]|[_ H]]; [done|].
  apply lookup_singleton_Some in H as [<- <-]. done.
Defined.

Lemma list_specs_sorted_complete_witness :
  "weather" ∈ registry.list_specs registry._TOOL_SPECS_at_import.
Proof.
  destruct (list_specs_sorted_complete registry._TOOL_SPECS_at_import)
    as (_ & _ & Hin & _).
  apply Hin. exists demo.weather_spec. vm_compute; reflexivity.
Defined.

Lemma tool_module_import_witness :
  exists msg s',
    tool_modules.import_tool_module (client := demo.online) "weather" true
      registry._TOOL_SPECS_at_import (demo.sys_init demo.w0)
      = Some (Raise (ToolManagerError msg None), s') /\
    _providers (manager s') !! "weather"
      = Some (registry.build_provider demo.weather_spec) /\
    _cache (manager s') !! "weather" = None /\
    loads s' = [].
Proof.
  destruct (tool_module_import (client := demo.online) "weather"
              registry._TOOL_SPECS_at_import (demo.sys_init demo.w0)
              builtin_directory_keyed) as [_ H].
  apply (H demo.weather_spec); [vm_compute; reflexivity|reflexivity].
Defined.

Lemma callable_module_import_witness :
  exists s1,
    tool_modules.import_callable_module (client := demo.online) "bidsearch"
      demo._build_tools "标讯查询工具集合"
      (Some ["bidding"; "jianyu"; "python"]) false
      registry._TOOL_SPECS_at_import (demo.sys_init demo.w0)
      = Some (Ok ["bid_list"; "bid_detail"; "bid_radar"], s1) /\
    loads s1 = ["bidsearch"] /\
    (exists p, _providers (manager s1) !! "bidsearch" = Some p /\
               kind p = "python") /\
    exists msg,
      tool_modules.import_callable_module (client := demo.online) "bidsearch"
        demo._build_tools "标讯查询工具集合"
        (Some ["bidding"; "jianyu"; "python"]) false
        registry._TOOL_SPECS_at_import s1
      = Some (Raise (ToolManagerError msg None), s1).
Proof.
  apply (callable_module_import (client := demo.online) "bidsearch"
           demo._build_tools "标讯查询工具集合"
           (Some ["bidding"; "jianyu"; "python"])
           registry._TOOL_SPECS_at_import (demo.sys_init demo.w0)
           (Some ["bid_list"; "bid_detail"; "bid_radar"]) demo.w0);
    reflexivity.
Defined.

Lemma callable_module_import_in_loop_witness :
  exists msg s',
    tool_modules.import_callable_module (client := demo.online) "bidsearch"
      demo._build_tools "标讯查询工具集合"
      (Some ["bidding"; "jianyu"; "python"]) true
      registry._TOOL_SPECS_at_import (demo.sys_init demo.w0)
      = Some (Raise (ToolManagerError msg None), s') /\
    is_registered "bidsearch" (manager s') = true /\
    loads s' = [] /\
    forall running_loop,
      exists msg',
        tool_modules.import_callable_module (client := demo.online)
          "bidsearch" demo._build_tools "标讯查询工具集合"
          (Some ["bidding"; "jianyu"; "python"]) running_loop
          registry._TOOL_SPECS_at_import s'
        = Some (Raise (ToolManagerError msg' None), s').
Proof.
  apply (callable_module_import_in_loop (client := demo.online) "bidsearch"
           demo._build_tools "标讯查询工具集合"
           (Some ["bidding"; "jianyu"; "python"])
           registry._TOOL_SPECS_at_import (demo.sys_init demo.w0)).
  reflexivity.
Defined.

Lemma loads_are_serialised_per_name_witness :
  exists l,
    exec (client := demo.online) [Run 0; Run 1; Run 2; Clock (demo.seconds 102); Run 1; Run 0]
      demo.mixed_calls = Some l /\
    (forall n i j, holds_lock l i n -> holds_lock l j n -> i = j) /\
    (forall n lk, loop_locks l !! n = Some lk ->
       _locked lk = true <-> exists i, holds_lock l i n) /\
    (completed l = false ->
       exists i l', step (client := demo.online) (Run i) l = Some l') /\
    (exists sched' l',
       exec (client := demo.online) sched' l = Some l' /\
       completed l' = true) /\
    (completed l = true -> locks_free l).
Proof.
  eexists. split; [vm_compute; reflexivity|].
  eapply (loads_are_serialised_per_name (client := demo.online)
            [Run 0; Run 1; Run 2; Clock (demo.seconds 102); Run 1; Run 0] demo.mixed_calls).
  - intros [|[|[|i]]] t Ht; cbn in Ht; by simplify_eq.
  - intros n lk Hlk. cbn in Hlk. by rewrite lookup_empty in Hlk.
  - vm_compute; reflexivity.
Defined.

Lemma each_call_loads_at_most_once_witness :
  exists l,
    exec (client := demo.online) [Run 0; Run 1; Run 2; Clock (demo.seconds 102); Run 1; Run 0]
      demo.mixed_calls = Some l /\
    length (loads (sys l)) + pending_loads l <= 3 /\
    _providers (manager (sys l)) = _providers demo.two_providers.
Proof.
  eexists. split; [vm_compute; reflexivity|].
  edestruct (each_call_loads_at_most_once (client := demo.online)
               [Run 0; Run 1; Run 2; Clock (demo.seconds 102); Run 1; Run 0] demo.mixed_calls)
    as (Hn & Hp & _).
  - intros [|[|[|i]]] t Ht; cbn in Ht; by simplify_eq.
  - intros n lk Hlk. cbn in Hlk. by rewrite lookup_empty in Hlk.
  - vm_compute; reflexivity.
  - split; [exact Hn|exact Hp].
Defined.
